(** * drift-X: the repository evidence and incremental-range pipeline

    A shallow embedding of the Python sources

    - [mcp_server/tools/commit_analyzer.py]  (module [CommitAnalyzer])
    - [history_manager.py]                   (module [history_manager])
    - [agents/compliance_agent.py]           (module [ComplianceAgent])
    - [ci_gate.py], [app.py]                 (module [ci_gate])

    then the vocabulary of the properties (module [Vocabulary]) and a
    concrete workspace (module [Scenario]), and then the properties of the
    specification, stated over these definitions.

    Conventions.  A Python [str] is a [list ascii] (string literals are
    coerced; a character is one of 256 values, and no property depends on
    the alphabet), a Python [int] is a [Z], a [dict] whose iteration order
    is observable is an association list in insertion order, and the
    mapping of the history file is a [gmap].  What lies outside the
    sources is an input of the functions that use it: the output of git
    ([check_output]), the answers of the judgment service
    ([chain_invoke]), [json.loads], [float], the clock, the working tree
    and the history file. *)

From Stdlib Require Import ZArith Ascii String List Bool Lia QArith.
From stdpp Require Import gmap strings list pretty.
Import ListNotations.

Open Scope string_scope.
Open Scope list_scope.
Open Scope nat_scope.

Set Warnings "-register-all".

(** ** Python values *)

Module Py.

Abbreviation str := (list ascii).

Coercion list_ascii_of_string : string >-> list.

(** Exceptions that the modelled code can see. *)
Inductive exn :=
| ValueError
| TypeError
| KeyError
| IndexError
| AttributeError
| OverflowError
| JSONDecodeError
| OSError
| ServiceError (msg : str).

(** The outcome of a call: a value, or a raised exception. *)
Inductive result (A : Type) :=
| Return (a : A)
| Raise (e : exn).
Arguments Return {A} a.
Arguments Raise {A} e.

Definition bind {A B} (m : result A) (k : A -> result B) : result B :=
  match m with
  | Return a => k a
  | Raise e => Raise e
  end.

Definition ascii_eqb (a b : ascii) : bool := Ascii.eqb a b.

Definition newline : ascii := "010"%char.
Definition pipe : ascii := "|"%char.

(** [s.startswith(p)] *)
Fixpoint startswith (p s : str) : bool :=
  match p, s with
  | [], _ => true
  | _ :: _, [] => false
  | a :: p', b :: s' => ascii_eqb a b && startswith p' s'
  end.

(** [s.endswith(p)] *)
Definition endswith (p s : str) : bool := startswith (rev p) (rev s).

(** [s.endswith((p1, ..., pn))] *)
Definition endswith_any (ps : list str) (s : str) : bool :=
  existsb (fun p => endswith p s) ps.

(** [s.split(sep)] for a one-character separator. *)
Fixpoint split (sep : ascii) (s : str) : list str :=
  match s with
  | [] => [[]]
  | c :: r =>
      if ascii_eqb c sep then [] :: split sep r
      else match split sep r with
           | w :: ws => (c :: w) :: ws
           | [] => [[c]]
           end
  end.

(** [s.split(sep, maxsplit)] for a one-character separator. *)
Fixpoint split_max (sep : ascii) (s : str) (maxsplit : nat) {struct s}
  : list str :=
  match maxsplit with
  | O => [s]
  | S m =>
      match s with
      | [] => [[]]
      | c :: r =>
          if ascii_eqb c sep then [] :: split_max sep r m
          else match split_max sep r maxsplit with
               | w :: ws => (c :: w) :: ws
               | [] => [[c]]
               end
      end
  end.

(** [sep.join(parts)] *)
Fixpoint join (sep : str) (parts : list str) : str :=
  match parts with
  | [] => []
  | [p] => p
  | p :: rest => p ++ sep ++ join sep rest
  end.

(** [c.isspace()] on the code points below 256. *)
Definition isspace (c : ascii) : bool :=
  let n := nat_of_ascii c in
  ((9 <=? n) && (n <=? 13)) || ((28 <=? n) && (n <=? 32))
  || (n =? 133) || (n =? 160).

Fixpoint lstrip (s : str) : str :=
  match s with
  | c :: r => if isspace c then lstrip r else s
  | [] => []
  end.

Definition rstrip (s : str) : str := rev (lstrip (rev s)).

(** [s.strip()] *)
Definition strip (s : str) : str := rstrip (lstrip s).

(** [len(s)] *)
Definition len {A} (s : list A) : Z := Z.of_nat (length s).

(** [s[:n]] and [s[n:]]; a negative index counts from the end. *)
Definition slice_to {A} (n : Z) (s : list A) : list A :=
  if (n <? 0)%Z then firstn (length s - Z.to_nat (- n)) s
  else firstn (Z.to_nat n) s.
Definition slice_from {A} (n : Z) (s : list A) : list A :=
  if (n <? 0)%Z then skipn (length s - Z.to_nat (- n)) s
  else skipn (Z.to_nat n) s.

(** [s.replace(old, "")] for a non-empty [old]: every occurrence found
    scanning from the left is dropped; [skip] counts the characters of the
    occurrence being dropped. *)
Fixpoint remove_from (old s : str) (skip : nat) : str :=
  match s with
  | [] => []
  | c :: r =>
      match skip with
      | S k => remove_from old r k
      | O =>
          if startswith old s then remove_from old r (length old - 1)
          else c :: remove_from old r 0
      end
  end.
Definition remove_all (old s : str) : str := remove_from old s 0.

(** [sub in s] for strings. *)
Fixpoint contains (sub s : str) : bool :=
  startswith sub s
  || match s with [] => false | _ :: r => contains sub r end.

(** Truth value of a string: the empty string is false. *)
Definition truthy (s : str) : bool :=
  match s with [] => false | _ :: _ => true end.

Definition str_eqb (a b : str) : bool := bool_decide (a = b).

(** A [dict] with string keys, in insertion order. *)
Abbreviation dict V := (list (str * V)).

Fixpoint dict_get {V} (k : str) (d : dict V) : option V :=
  match d with
  | [] => None
  | (k', v) :: r => if str_eqb k' k then Some v else dict_get k r
  end.

(** [k in d] *)
Definition dict_in {V} (k : str) (d : dict V) : bool :=
  match dict_get k d with Some _ => true | None => false end.

(** [d[k] = v]: an existing key keeps its position, a new one goes last. *)
Fixpoint dict_set {V} (k : str) (v : V) (d : dict V) : dict V :=
  match d with
  | [] => [(k, v)]
  | (k', v') :: r =>
      if str_eqb k' k then (k, v) :: r else (k', v') :: dict_set k v r
  end.

Definition dict_keys {V} (d : dict V) : list str := map fst d.
Definition dict_values {V} (d : dict V) : list V := map snd d.

(** A Python [float]: not-a-number, an infinity, or a finite value. *)
Inductive pyfloat :=
| FNaN
| FInf (negative : bool)
| FFinite (q : Q).

(** [a < b] on floats; every comparison with a NaN is false. *)
Definition float_lt (a b : pyfloat) : bool :=
  match a, b with
  | FNaN, _ | _, FNaN => false
  | FInf true, FInf true => false
  | FInf true, _ => true
  | _, FInf true => false
  | FInf false, _ => false
  | FFinite _, FInf false => true
  | FFinite p, FFinite q => negb (Qle_bool q p)
  end.

(** [min(a, b)] and [max(a, b)]: the first argument is kept unless the
    second is strictly smaller (greater). *)
Definition py_min (a b : pyfloat) : pyfloat := if float_lt b a then b else a.
Definition py_max (a b : pyfloat) : pyfloat := if float_lt a b then b else a.

(** The values that [json.loads] produces and [json.dump] accepts. *)
Inductive value :=
| VNone
| VBool (b : bool)
| VInt (z : Z)
| VFloat (x : pyfloat)
| VStr (s : str)
| VList (items : list value)
| VDict (fields : list (str * value)).

(** [key in data] for a string [key]. *)
Definition py_in (key : str) (data : value) : result bool :=
  match data with
  | VDict d => Return (dict_in key d)
  | VList l =>
      Return (existsb (fun v => match v with
                                | VStr s => str_eqb s key
                                | _ => false
                                end) l)
  | VStr s => Return (contains key s)
  | _ => Raise TypeError
  end.

(** [data[key]] for a string [key]. *)
Definition getitem (data : value) (key : str) : result value :=
  match data with
  | VDict d =>
      match dict_get key d with
      | Some v => Return v
      | None => Raise KeyError
      end
  | _ => Raise TypeError
  end.

(** [l[0]] and [l[-1]] *)
Definition first_item {A} (l : list A) : result A :=
  match l with
  | x :: _ => Return x
  | [] => Raise IndexError
  end.
Definition last_item {A} (l : list A) : result A :=
  match last l with
  | Some x => Return x
  | None => Raise IndexError
  end.

(** [l[i]]; a negative index counts from the end. *)
Definition index {A} (l : list A) (i : Z) : result A :=
  let j := if (i <? 0)%Z then (len l + i)%Z else i in
  if (j <? 0)%Z || (len l <=? j)%Z then Raise IndexError
  else match l !! Z.to_nat j with
       | Some x => Return x
       | None => Raise IndexError
       end.

(** An optional argument that is neither [None] nor empty. *)
Definition supplied (o : option str) : option str :=
  match o with
  | Some s => if truthy s then Some s else None
  | None => None
  end.

(** [data[key] = v] for a string [key]. *)
Definition setitem (data : value) (key : str) (v : value) : result value :=
  match data with
  | VDict d => Return (VDict (dict_set key v d))
  | _ => Raise TypeError
  end.

(** [data.get(key)] on a dict. *)
Definition field (key : str) (data : value) : option value :=
  match data with
  | VDict d => dict_get key d
  | _ => None
  end.

End Py.

Import Py.

(** ** mcp_server/tools/commit_analyzer.py *)

Module CommitAnalyzer.

(** What [subprocess.check_output] gives for a command line: the decoded
    standard output of a run that exited with status zero, or the
    [CalledProcessError] of a run that exited with another status.  The
    tool is taken as started; [CommitReader] below has the call that cannot
    start it. *)
Inductive subprocess_result :=
| Completed (stdout : str)
| CalledProcessError.

Record commit := {
  hash : str;
  message : str;
  date : str;
  author : str
}.

(** One entry of the deletion timeline. *)
Record timeline_entry := {
  commit_ : commit;
  files_modified : list str;
  total_lines_deleted : Z
}.

Record feature_loss_context := {
  total_commits_analyzed : Z;
  commits_with_deletions : Z;
  deletion_timeline : list timeline_entry;
  oldest_commit : option (str * str);
  newest_commit : option (str * str)
}.

Inductive context_result :=
| NotEnoughCommits
| Context (c : feature_loss_context).

Definition code_extensions : list str :=
  [ ".py" : str; ".js" : str; ".ts" : str; ".java" : str; ".cpp" : str;
    ".c" : str; ".cs" : str; ".go" : str;
    ".rb" : str; ".php" : str; ".swift" : str; ".kt" : str; ".rs" : str;
    ".scala" : str; ".r" : str;
    ".jsx" : str; ".tsx" : str; ".vue" : str; ".html" : str; ".css" : str;
    ".scss" : str ].

Definition _is_code_file (file_path : str) : bool :=
  existsb (fun ext => endswith ext file_path) code_extensions.

(** A changed line of a diff: starts with [-] or [+], but not with one of
    the header markers [---] and [+++]. *)
Definition is_change_line (line : str) : bool :=
  (startswith "-" line || startswith "+" line)
  && negb (startswith "---" line || startswith "+++" line).

(** The state of the loop over the lines of the diff: [current_file]
    ([None] until the first ["+++ b/"] header) and [changes]. *)
Abbreviation diff_state := (option str * dict (list str))%type.

(** [changes[current_file].append(line)], after [changes[current_file] =
    []] when the key is new. *)
Definition record_line (f line : str) (changes : dict (list str))
  : dict (list str) :=
  let changes :=
    if dict_in f changes then changes else dict_set f [] changes in
  dict_set f (default [] (dict_get f changes) ++ [line]) changes.

(** One iteration of the loop. *)
Definition diff_step (st : diff_state) (line : str) : diff_state :=
  let '(current_file, changes) := st in
  if startswith "+++ b/" line then (Some (slice_from 6 line), changes)
  else if is_change_line line then
    match current_file with
    | Some f =>
        if truthy f && _is_code_file f
        then (current_file, record_line f line changes)
        else st
    | None => st
    end
  else st.

Definition diff_loop (lines : list str) (st : diff_state) : diff_state :=
  fold_left diff_step lines st.

(** The dictionary built from the text of a diff. *)
Definition parse_diff (result : str) : dict (list str) :=
  snd (diff_loop (split newline result) (None, [])).

(** [{fp: [l[1:] for l in lines if l.startswith('-')] for fp, lines in
    changes.items()}] *)
Definition deletions_of (changes : dict (list str)) : dict (list str) :=
  map (fun '(fp, lines) =>
         (fp, map (slice_from 1) (List.filter (startswith "-") lines)))
      changes.

Definition code_deletions_of (deletions : dict (list str))
  : dict (list str) :=
  List.filter (fun kv => _is_code_file (fst kv)) deletions.

(** [sum(len(lines) for lines in vs)] *)
Definition sum_lengths (vs : list (list str)) : Z :=
  fold_left (fun acc lines => (acc + len lines)%Z) vs 0%Z.

(** The result of [analyze_feature_loss]: for each file the number of
    deleted lines and a sample of them; the two commits compared. *)
Record file_loss := {
  lines_deleted : Z;
  sample_deletions : list str
}.

Record commit_info := {
  info_hash : str;
  info_message : str;
  info_date : str
}.

Record loss_analysis := {
  initial_commit : commit_info;
  recent_commit : commit_info;
  analysis_commits_analyzed : Z;
  files_with_deletions : Z;
  deletions : dict file_loss
}.

Inductive analysis_result :=
| NotEnoughToAnalyze (commits_found : Z)
| Analysis (a : loss_analysis).

Definition commit_info_of (c : commit) : commit_info :=
  {| info_hash := slice_to 8 (hash c); info_message := message c;
     info_date := date c |}.

(** The loop [for file_path, deleted_lines in deletions.items()] of
    [analyze_feature_loss]. *)
Definition categorize (deletions : dict (list str)) : dict file_loss :=
  fold_left
    (fun acc kv =>
       if _is_code_file (fst kv)
       then dict_set (fst kv)
              {| lines_deleted := len (snd kv);
                 sample_deletions := slice_to 10 (snd kv) |} acc
       else acc)
    deletions [].

Section WithWorkspace.

(** The version-control tool, as seen through [subprocess.check_output]. *)
Variable check_output : list str -> subprocess_result.

(** [self.repo_path] *)
Variable repo_path : str.

Definition log_cmd (max_commits : Z) : list str :=
  [ "git" : str; "-C" : str; repo_path; "log" : str;
    "--max-count=" ++ (pretty max_commits : string);
    "--pretty=format:%H|%s|%ai|%an" : str ].

Definition diff_cmd (old_commit new_commit : str) : list str :=
  [ "git" : str; "-C" : str; repo_path; "diff" : str;
    old_commit; new_commit; "--unified=0" : str ].

(** The loop of [get_commit_history] over the lines of the log. *)
Fixpoint commits_loop (lines : list str) (commits : list commit)
  : result (list commit) :=
  match lines with
  | [] => Return commits
  | line :: rest =>
      if truthy line then
        match split_max pipe line 3 with
        | [hash_val; message; date; author] =>
            commits_loop rest
              (commits ++ [ {| hash := hash_val; message := message;
                               date := date; author := author |} ])
        | _ => Raise ValueError
        end
      else commits_loop rest commits
  end.

Definition get_commit_history (max_commits : Z) : result (list commit) :=
  match check_output (log_cmd max_commits) with
  | Completed result => commits_loop (split newline (strip result)) []
  | CalledProcessError => Return []
  end.

Definition get_full_diff_between_commits (old_commit new_commit : str)
  : dict (list str) :=
  match check_output (diff_cmd old_commit new_commit) with
  | Completed result => parse_diff result
  | CalledProcessError => []
  end.

Definition timeline_step (newer older : commit) : list timeline_entry :=
  let changes :=
    get_full_diff_between_commits (hash older) (hash newer) in
  let deletions := deletions_of changes in
  match deletions with
  | [] => []
  | _ :: _ =>
      let code_deletions := code_deletions_of deletions in
      match code_deletions with
      | [] => []
      | _ :: _ =>
          [ {| commit_ := {| hash := slice_to 8 (hash newer);
                             message := message newer;
                             date := date newer;
                             author := author newer |};
               files_modified := dict_keys code_deletions;
               total_lines_deleted :=
                 sum_lengths (dict_values code_deletions) |} ]
      end
  end.

(** [for i in range(len(commits) - 1)] with [newer = commits[i]] and
    [older = commits[i + 1]]. *)
Fixpoint timeline_loop (commits : list commit)
    (deletion_timeline : list timeline_entry) : list timeline_entry :=
  match commits with
  | newer :: ((older :: _) as rest) =>
      timeline_loop rest (deletion_timeline ++ timeline_step newer older)
  | _ => deletion_timeline
  end.

Definition hash_and_date (c : commit) : str * str :=
  (slice_to 8 (hash c), date c).

Definition get_feature_loss_context (max_commits : Z)
  : result context_result :=
  bind (get_commit_history max_commits) (fun commits =>
    if (len commits <? 2)%Z then Return NotEnoughCommits
    else
      let deletion_timeline := timeline_loop commits [] in
      Return (Context
        {| total_commits_analyzed := len commits;
           commits_with_deletions := len deletion_timeline;
           deletion_timeline := deletion_timeline;
           oldest_commit := hash_and_date <$> last commits;
           newest_commit := hash_and_date <$> head commits |})).

(** [analyze_feature_loss(initial_commit_index=0, recent_commit_index=-1)];
    [get_commit_history()] reads up to 50 commits. *)
Definition analyze_feature_loss (initial_commit_index recent_commit_index : Z)
  : result analysis_result :=
  bind (get_commit_history 50) (fun commits =>
    if (len commits <? 2)%Z then Return (NotEnoughToAnalyze (len commits))
    else
      bind (index commits initial_commit_index) (fun initial =>
      bind (index commits recent_commit_index) (fun recent =>
      let changes :=
        get_full_diff_between_commits (hash initial) (hash recent) in
      let deletions := deletions_of changes in
      Return (Analysis
        {| initial_commit := commit_info_of initial;
           recent_commit := commit_info_of recent;
           analysis_commits_analyzed := len commits;
           files_with_deletions := len deletions;
           deletions := categorize deletions |})))).

(** [get_commit_diff_summary(commit_hash)] *)
Definition get_commit_diff_summary (commit_hash : str) : str :=
  match check_output [ "git" : str; "-C" : str; repo_path; "show" : str;
                       commit_hash; "--stat" : str ] with
  | Completed result => result
  | CalledProcessError => []
  end.

End WithWorkspace.

End CommitAnalyzer.

(** ** The call of [subprocess.check_output]

    [CommitAnalyzer] takes the tool as started: a run completes or exits
    with a status other than zero.  The call has one more outcome: the
    tool cannot be started and an [OSError] is raised (a
    [FileNotFoundError] when no [git] is installed), which is not a
    [CalledProcessError].  [get_commit_history] is given here once more, on
    this wider outcome; on a tool that starts it is the function of
    [CommitAnalyzer]. *)

Module CommitReader.

Import CommitAnalyzer.

Inductive outcome :=
| Ran (r : subprocess_result)
| NotStarted.

Section WithTool.

Variable check_output : list str -> outcome.
Variable repo_path : str.

(** The handler names [subprocess.CalledProcessError] only. *)
Definition get_commit_history (max_commits : Z) : result (list commit) :=
  match check_output (log_cmd repo_path max_commits) with
  | Ran (Completed result) => commits_loop (split newline (strip result)) []
  | Ran CalledProcessError => Return []
  | NotStarted => Raise OSError
  end.

End WithTool.

End CommitReader.

(** ** history_manager.py *)

Module history_manager.

(** One record of the history file. *)
Record entry := {
  timestamp : str;
  type : str;
  score : value;
  summary : value;
  last_commit_hash : option str
}.

(** The backing file [HISTORY_FILE]: missing, present but not loadable
    ([json.load] or [open] raises), or holding a mapping from repository
    to its list of records, which is what the program writes.  The file is
    taken to be writable.  A file that holds other JSON is in [any_file]
    below. *)
Inductive file_state :=
| Absent
| Unreadable
| Stored (history : gmap str (list entry)).

(** The file together with the number of times it has been opened for
    writing. *)
Record disk := {
  HISTORY_FILE : file_state;
  writes : nat
}.

(** [with open(HISTORY_FILE, "w") as f: json.dump(history, f)] *)
Definition dump (history : gmap str (list entry)) (d : disk) : disk :=
  {| HISTORY_FILE := Stored history; writes := S (writes d) |}.

Definition load_all_history (d : disk) : gmap str (list entry) :=
  match HISTORY_FILE d with
  | Absent => ∅
  | Stored history => history
  | Unreadable => ∅
  end.

Definition get_repo_history (repo_url : str) (d : disk) : list entry :=
  let history := load_all_history d in
  default [] (history !! repo_url).

(** [now] is the formatted [datetime.now()]. *)
Definition save_analysis (now : str) (repo_url analysis_type : str)
    (score summary : value) (last_commit_hash : option str) (d : disk)
  : disk :=
  let history := load_all_history d in
  let entry := {| timestamp := now; type := analysis_type; score := score;
                  summary := summary;
                  last_commit_hash := last_commit_hash |} in
  let history :=
    match history !! repo_url with
    | None => <[repo_url := []]> history
    | Some _ => history
    end in
  let history :=
    <[repo_url := entry :: default [] (history !! repo_url)]> history in
  let history :=
    <[repo_url := slice_to 10 (default [] (history !! repo_url))]> history in
  dump history d.

Definition clear_repo_history (repo_url : str) (d : disk) : bool * disk :=
  let history := load_all_history d in
  match history !! repo_url with
  | Some _ => (true, dump (delete repo_url history) d)
  | None => (false, d)
  end.

(** The arguments of one call of [save_analysis]. *)
Record save_call := {
  call_now : str;
  call_repo_url : str;
  call_type : str;
  call_score : value;
  call_summary : value;
  call_last_commit_hash : option str
}.

Definition run_save (d : disk) (c : save_call) : disk :=
  save_analysis (call_now c) (call_repo_url c) (call_type c) (call_score c)
    (call_summary c) (call_last_commit_hash c) d.

(** A sequence of calls, the first of the list first. *)
Definition run_saves (calls : list save_call) (d : disk) : disk :=
  fold_left run_save calls d.

(** The record that a call stores. *)
Definition entry_of (c : save_call) : entry :=
  {| timestamp := call_now c; type := call_type c; score := call_score c;
     summary := call_summary c;
     last_commit_hash := call_last_commit_hash c |}.

(** The records stored for [repo_url] by a sequence of calls, oldest
    first. *)
Definition entries_for (repo_url : str) (calls : list save_call)
  : list entry :=
  map entry_of
    (List.filter (fun c => bool_decide (call_repo_url c = repo_url)) calls).

(** *** A file of any content

    The definitions above read the file as the program writes it.  For a
    file of any content, [json.load] gives any JSON value; the two readers
    are given here once more on such a file. *)

Inductive any_file :=
| Missing
| NotLoadable
| Loaded (v : value).

Module AnyFile.

(** [os.path.exists] is false: [{}]; [open] or [json.load] raises: [{}];
    otherwise what [json.load] returns. *)
Definition load_all_history (f : any_file) : value :=
  match f with
  | Missing => VDict []
  | NotLoadable => VDict []
  | Loaded v => v
  end.

(** [history.get(repo_url, [])]: only a [dict] has the method [get]. *)
Definition get_repo_history (repo_url : str) (f : any_file) : result value :=
  match load_all_history f with
  | VDict history => Return (default (VList []) (dict_get repo_url history))
  | _ => Raise AttributeError
  end.

End AnyFile.

(** A record, and a file of the program, as JSON. *)
Definition value_of_entry (e : entry) : value :=
  VDict [ ("timestamp" : str, VStr (timestamp e));
          ("type" : str, VStr (type e));
          ("score" : str, score e);
          ("summary" : str, summary e);
          ("last_commit_hash" : str,
           match last_commit_hash e with
           | Some h => VStr h
           | None => VNone
           end) ].

Definition any_of (s : file_state) : any_file :=
  match s with
  | Absent => Missing
  | Unreadable => NotLoadable
  | Stored history =>
      Loaded (VDict (map (fun kv => (fst kv, VList (map value_of_entry (snd kv))))
                       (map_to_list history)))
  end.

End history_manager.

(** ** agents/compliance_agent.py *)

Module ComplianceAgent.

Import CommitAnalyzer.

(** *** The working tree seen by [_get_code_summary] *)

(** A file of a directory listing: its name, what [os.path.getsize]
    gives ([None]: it raises), and what [open] followed by [readlines]
    gives ([None]: one of them raises). *)
Record file_node := {
  name : str;
  size : option Z;
  lines : option (list str)
}.

(** A directory: its files and its sub-directories, in the order of the
    listing. *)
Inductive tree :=
| Dir (files : list file_node) (dirs : list (str * tree)).

(** What the summarizer does to the file system: it lists a directory
    (one step of [os.walk]) or opens a file.  [below] is the chain of
    directory names from the walked root. *)
Inductive event :=
| Walked (below : list str) (root : str)
| Opened (below : list str) (file : file_node) (file_path : str).

Definition ignore_dirs : list str :=
  [ ".git" : str; "node_modules" : str; "__pycache__" : str; "build" : str;
    "dist" : str; ".next" : str; ".venv" : str; "venv" : str; "env" : str;
    ".idea" : str; ".vscode" : str ].

Definition skipped_suffixes : list str :=
  [ ".png" : str; ".jpg" : str; ".jpeg" : str; ".gif" : str; ".ico" : str;
    ".pyc" : str; ".git" : str; ".exe" : str; ".dll" : str; ".so" : str;
    ".dylib" : str; ".pdf" : str; ".zip" : str; ".tar.gz" : str;
    "-lock.json" : str; ".lock" : str; ".log" : str ].

(** [d in ignore_dirs] *)
Definition ignored (d : str) : bool := existsb (str_eqb d) ignore_dirs.

(** [os.path.join(a, b)] *)
Definition path_join (a b : str) : str :=
  if startswith "/" b then b
  else if negb (truthy a) || endswith "/" a then a ++ b
  else a ++ "/" ++ b.

(** [f"{i}: {line}"] *)
Definition line_entry (i : Z) (line : str) : str :=
  (pretty i : string) ++ ": " ++ line.

(** The loop over the lines of one file, with its [break]. *)
Fixpoint content_loop (lines : list str) (i : Z) (content_with_lines : str)
    (current_chars : Z) : str :=
  match lines with
  | [] => content_with_lines
  | line :: rest =>
      let line_entry := line_entry i line in
      if (current_chars + len line_entry >? 3000)%Z then content_with_lines
      else content_loop rest (i + 1)%Z (content_with_lines ++ line_entry)
             (current_chars + len line_entry)%Z
  end.

(** The numbered content emitted for the lines of one file. *)
Definition numbered_content (lines : list str) : str :=
  content_loop lines 1%Z [] 0%Z.

(** The state of the walk: [summary] and the events so far. *)
Abbreviation walk_state := (str * list event)%type.

(** The body of [for file in files]. *)
Definition file_step (below : list str) (root : str) (st : walk_state)
    (file : file_node) : walk_state :=
  let '(summary, log) := st in
  if endswith_any skipped_suffixes (name file) then st
  else
    let file_path := path_join root (name file) in
    match size file with
    | None => st
    | Some sz =>
        if (sz >? 102400)%Z then st
        else
          let log := log ++ [Opened below file file_path] in
          match lines file with
          | None => (summary, log)
          | Some lines =>
              (summary ++ "--- " ++ name file ++ " ---" ++ [newline]
                 ++ numbered_content lines ++ [newline], log)
          end
    end.

(** The body of [for root, dirs, files in os.walk(repo_path)] for one
    directory, after the pruning of [dirs]. *)
Definition visit (below : list str) (root : str) (files : list file_node)
    (st : walk_state) : walk_state :=
  let '(summary, log) := st in
  let summary :=
    summary ++ [newline] ++ "Directory: " ++ root ++ [newline] ++ "Files: "
      ++ join ", " (map name files) ++ [newline] in
  fold_left (file_step below root) files
    (summary, log ++ [Walked below root]).

(** [os.walk], top-down: a directory is visited, then each of its
    sub-directories that the pruning [dirs[:] = [d for d in dirs if d not
    in ignore_dirs]] has kept, in order. *)
Fixpoint walk (below : list str) (root : str) (t : tree) (st : walk_state)
  : walk_state :=
  match t with
  | Dir files dirs =>
      (fix walk_dirs (ds : list (str * tree)) (st : walk_state)
         : walk_state :=
         match ds with
         | [] => st
         | (d, sub) :: rest =>
             if ignored d then walk_dirs rest st
             else walk_dirs rest
                    (walk (below ++ [d]) (path_join root d) sub st)
         end) dirs (visit below root files st)
  end.

(** [_get_code_summary(repo_path)], with the events it causes; [top] is
    the directory at [repo_path] ([None]: there is none). *)
Definition _get_code_summary (top : option tree) (repo_path : str)
  : str * list event :=
  let '(summary, log) :=
    match top with
    | Some t => walk [] repo_path t ([], [])
    | None => ([], [])
    end in
  (slice_to 45000 summary, log).

(** *** The judgment step *)

Inductive prompt :=
| UnifiedPrompt
| FeatureLossPrompt.

Definition zero : pyfloat := FFinite 0.
Definition hundred : pyfloat := FFinite 100.

(** [max(0.0, min(100.0, x))] *)
Definition clamp (x : pyfloat) : pyfloat := py_max zero (py_min hundred x).

(** [content.replace("```json", "").replace("```", "").strip()] *)
Definition clean (content : str) : str :=
  strip (remove_all "```" (remove_all "```json" content)).

(** [dos_donts_text[:5000] if dos_donts_text else "No specific ..."] *)
Definition dos_donts_input (dos_donts_text : str) : str :=
  if truthy dos_donts_text then slice_to 5000 dos_donts_text
  else "No specific guidelines provided.".

(** The range determination of [analyze_feature_loss_with_history]:
    the pair (base, head). *)
Definition commit_range (commit_history : list commit)
    (base_commit head_commit : option str) : result (str * str) :=
  bind (match supplied head_commit with
        | Some h => Return h
        | None => bind (first_item commit_history) (fun c => Return (hash c))
        end) (fun head_commit =>
  bind (match supplied base_commit with
        | Some b => Return b
        | None => bind (last_item commit_history) (fun c => Return (hash c))
        end) (fun base_commit =>
  Return (base_commit, head_commit))).

Section WithServices.

(** [(prompt | self.llm).invoke(inputs).content]: the text returned by
    the judgment service for the inputs of a prompt, or the exception
    raised on the way. *)
Variable chain_invoke : prompt -> list (str * str) -> result str.

(** [json.loads] *)
Variable json_loads : str -> result value.

(** [float(x)] for an [int] and for a [str]. *)
Variable float_of_int : Z -> result pyfloat.
Variable float_of_str : str -> result pyfloat.

(** [str(e)] *)
Variable str_of_exn : exn -> str.

(** [json.dumps(x, indent=2)] for the two values that are dumped. *)
Variable dumps_context : context_result -> str.
Variable dumps_changes : dict (list str) -> str.

(** The version-control tool and [str(datetime.now())]. *)
Variable check_output : list str -> subprocess_result.
Variable now : str.

(** [float(v)] *)
Definition py_float (v : value) : result pyfloat :=
  match v with
  | VFloat x => Return x
  | VInt z => float_of_int z
  | VBool b => Return (FFinite (if b then 1 else 0))
  | VStr s => float_of_str s
  | VNone | VList _ | VDict _ => Raise TypeError
  end.

(** The value that the clamping step stores for a score [v]: the clamped
    [float(v)], or 0.0 when [float(v)] raises. *)
Definition clamped (v : value) : value :=
  match py_float v with
  | Return x => VFloat (clamp x)
  | Raise _ => VFloat zero
  end.

(** [if key in data: try: data[key] = max(0.0, min(100.0,
    float(data[key]))) except: data[key] = 0.0] *)
Definition clamp_score (key : str) (data : value) : result value :=
  bind (py_in key data) (fun present =>
    if present : bool then
      match bind (getitem data key) (fun v =>
            bind (py_float v) (fun x =>
            setitem data key (VFloat (clamp x)))) with
      | Return data => Return data
      | Raise _ => setitem data key (VFloat zero)
      end
    else Return data).

(** The inputs of the unified prompt. *)
Definition unified_inputs (top : option tree)
    (repo_path requirements_text dos_donts_text : str) : list (str * str) :=
  let code_context := fst (_get_code_summary top repo_path) in
  [ ("requirements" : str, slice_to 10000 requirements_text);
    ("dos_donts" : str, dos_donts_input dos_donts_text);
    ("code_context" : str, code_context) ].

(** The dictionary returned when the [try] block of [unified_analysis]
    raises [e]. *)
Definition unified_failed (e : exn) : value :=
  VDict [ ("error" : str, VStr (str_of_exn e));
          ("score" : str, VInt 0);
          ("issues" : str, VList []);
          ("summary" : str,
           VStr ("Unified analysis failed: " ++ str_of_exn e)) ].

Definition unified_analysis (top : option tree)
    (repo_path requirements_text dos_donts_text : str) : value :=
  match
    bind (chain_invoke UnifiedPrompt
            (unified_inputs top repo_path requirements_text dos_donts_text))
      (fun content =>
    bind (json_loads (clean content)) (fun data =>
    clamp_score "score" data))
  with
  | Return data => data
  | Raise e => unified_failed e
  end.

(** The inputs of the feature-loss prompt. *)
Definition feature_loss_inputs (code_context requirements_text
    dos_donts_text : str) (history_context : context_result)
    (full_diff : dict (list str)) (base_commit head_commit : str)
  : list (str * str) :=
  [ ("requirements" : str, slice_to 10000 requirements_text);
    ("dos_donts" : str, dos_donts_input dos_donts_text);
    ("code_context" : str, slice_to 15000 code_context);
    ("commit_analysis" : str, slice_to 5000 (dumps_context history_context));
    ("deletions" : str, slice_to 5000 (dumps_changes full_diff));
    ("base_hash" : str, slice_to 8 base_commit);
    ("head_hash" : str, slice_to 8 head_commit) ].

(** The [try] block of [analyze_feature_loss_with_history]. *)
Definition feature_loss_try (inputs : list (str * str)) (repo_path : str)
    (commit_history : list commit) (base_commit head_commit : str)
  : result value :=
  bind (chain_invoke FeatureLossPrompt inputs) (fun content =>
  bind (json_loads (clean content)) (fun result =>
  bind (clamp_score "feature_loss_score" result) (fun result =>
  setitem result "analysis_metadata"
    (VDict [ ("repo_path" : str, VStr repo_path);
             ("total_commits" : str, VInt (len commit_history));
             ("base_commit" : str, VStr base_commit);
             ("head_commit" : str, VStr head_commit);
             ("analysis_date" : str, VStr now) ])))).

(** The dictionary returned when that block raises [e]. *)
Definition feature_loss_failed (e : exn) : value :=
  VDict [ ("error" : str, VStr (str_of_exn e));
          ("feature_loss_score" : str, VInt 0);
          ("feature_changes" : str, VList []);
          ("summary" : str,
           VStr ("Feature history analysis failed: " ++ str_of_exn e)) ].

(** The dictionary returned for a history of fewer than two commits. *)
Definition not_enough_history : value :=
  VDict [ ("error" : str,
           VStr "Not enough commit history to analyze feature loss");
          ("score" : str, VInt 0) ].

Definition analyze_feature_loss_with_history (top : option tree)
    (repo_path requirements_text dos_donts_text : str)
    (base_commit head_commit : option str) : result value :=
  bind (get_commit_history check_output repo_path 50)
    (fun commit_history =>
  if (len commit_history <? 2)%Z then Return not_enough_history
  else
  bind (commit_range commit_history base_commit head_commit)
    (fun '(base_commit, head_commit) =>
  let full_diff :=
    get_full_diff_between_commits check_output repo_path
      base_commit head_commit in
  bind (get_feature_loss_context check_output repo_path 50)
    (fun history_context =>
  let code_context := fst (_get_code_summary top repo_path) in
  Return
    match
      feature_loss_try
        (feature_loss_inputs code_context requirements_text dos_donts_text
           history_context full_diff base_commit head_commit)
        repo_path commit_history base_commit head_commit
    with
    | Return result => result
    | Raise e => feature_loss_failed e
    end))).

End WithServices.

End ComplianceAgent.

(** ** ci_gate.py and app.py: the base of the incremental range *)

Module ci_gate.

Import history_manager ComplianceAgent.

(** The scan of the stored records, newest first, for the first one whose
    [last_commit_hash] is set. *)
Fixpoint last_analyzed_commit (repo_history : list entry) : option str :=
  match repo_history with
  | [] => None
  | entry :: rest =>
      match supplied (last_commit_hash entry) with
      | Some h => Some h
      | None => last_analyzed_commit rest
      end
  end.

(** [app.py]: [final_base = base_commit_hash if base_commit_hash else
    last_analyzed_commit] and [final_head = head_commit_hash if
    head_commit_hash else None]. *)
Definition final_base (base_commit_hash last_analyzed : option str)
  : option str :=
  match supplied base_commit_hash with
  | Some b => Some b
  | None => last_analyzed
  end.
Definition final_head (head_commit_hash : option str) : option str :=
  supplied head_commit_hash.

(** [results.get("score", 0)], the score that [ci_gate.py] compares with its
    threshold and stores. *)
Definition final_score (results : value) : result value :=
  match results with
  | VDict d => Return (default (VInt 0) (dict_get "score" d))
  | _ => Raise AttributeError
  end.

(** The range that an audit examines, given the stored records of the
    repository, the commits of the workspace and the commits chosen by
    the caller ([ci_gate.py] passes none). *)
Definition select_range (repo_history : list entry)
    (commit_history : list CommitAnalyzer.commit)
    (base_commit_hash head_commit_hash : option str) : result (str * str) :=
  commit_range commit_history
    (final_base base_commit_hash (last_analyzed_commit repo_history))
    (final_head head_commit_hash).

End ci_gate.

(** ** app.py: the default of the base selector *)

Module app.

Import CommitAnalyzer.

(** [for i, c in enumerate(available_commits): if
    c['hash'].startswith(prefix): base_idx = i; break] *)
Fixpoint first_with_prefix (prefix : str) (commits : list commit) (i : Z)
  : option Z :=
  match commits with
  | [] => None
  | c :: rest =>
      if startswith prefix (hash c) then Some i
      else first_with_prefix prefix rest (i + 1)%Z
  end.

(** The index preselected for the base commit: the oldest commit, or the
    first commit whose hash starts with the first eight characters of the
    hash analyzed last. *)
Definition base_idx (available_commits : list commit)
    (last_analyzed_hash : option str) : Z :=
  let base_idx := (len available_commits - 1)%Z in
  match supplied last_analyzed_hash with
  | Some h =>
      match first_with_prefix (slice_to 8 h) available_commits 0 with
      | Some i => i
      | None => base_idx
      end
  | None => base_idx
  end.

End app.

(** ** mcp_server/tools/git_reader.py: [parse_git_url] *)

Module git_reader.

Definition slash : ascii := "/"%char.

(** The longest prefix of [s] whose characters satisfy [p], and the rest. *)
Fixpoint span (p : ascii -> bool) (s : str) : str * str :=
  match s with
  | [] => ([], [])
  | c :: r =>
      if p c then let '(a, b) := span p r in (c :: a, b) else ([], s)
  end.

(** The group [([^/]+)]: the longest run of characters other than [/],
    which must not be empty. *)
Definition segment (s : str) : option (str * str) :=
  let '(seg, rest) := span (fun c => negb (ascii_eqb c slash)) s in
  if truthy seg then Some (seg, rest) else None.

(** A literal part of the pattern. *)
Definition literal (p s : str) : option str :=
  if startswith p s then Some (skipn (length p) s) else None.

Definition or_else {A} (a b : option A) : option A :=
  match a with Some x => Some x | None => b end.

(** [re.match] of [url] against the pattern of [parse_git_url]: [http] or
    [https], [://github.com/], the groups owner and repo, each followed by
    [/], then [tree] or [blob], [/], the group branch, and as the group
    subpath whatever follows up to a line break.  The result is the groups
    owner, repo, branch and subpath. *)
Definition match_github (url : str) : option (str * str * str * str) :=
  match or_else (literal "https://github.com/" url)
                (literal "http://github.com/" url) with
  | None => None
  | Some rest =>
  match segment rest with
  | None => None
  | Some (owner, rest) =>
  match literal "/" rest with
  | None => None
  | Some rest =>
  match segment rest with
  | None => None
  | Some (repo, rest) =>
  match literal "/" rest with
  | None => None
  | Some rest =>
  match or_else (literal "tree/" rest) (literal "blob/" rest) with
  | None => None
  | Some rest =>
  match segment rest with
  | None => None
  | Some (branch, rest) =>
      Some (owner, repo, branch,
            fst (span (fun c => negb (ascii_eqb c newline)) rest))
  end end end end end end end.

(** [s.lstrip('/')] *)
Fixpoint lstrip_slash (s : str) : str :=
  match s with
  | c :: r => if ascii_eqb c slash then lstrip_slash r else s
  | [] => []
  end.

(** The root URL, the branch and the sub-path of a repository URL. *)
Definition parse_git_url (url : str) : str * option str * option str :=
  if endswith ".git" url then (url, None, None)
  else
    match match_github url with
    | Some (owner, repo, branch, subpath) =>
        ("https://github.com/" ++ owner ++ "/" ++ repo ++ ".git",
         Some branch, Some (lstrip_slash subpath))
    | None => (url, None, None)
    end.

End git_reader.

(** ** Vocabulary of the properties *)

Module Vocabulary.

Import CommitAnalyzer.

(** The lines recorded for a file in a dictionary of changes. *)
Definition stored (f : str) (changes : dict (list str)) : list str :=
  default [] (dict_get f changes).

(** The header that names the new file [f]. *)
Definition new_file_header (f : str) : str := "+++ b/" ++ f.

(** No line of [lines] is a new-file header. *)
Definition no_header (lines : list str) : Prop :=
  Forall (fun line => startswith "+++ b/" line = false) lines.

(** The line [l] of a diff stands under the header of the file [f]: the
    lines are [before], the header of [f], lines without a header, [l], and
    [after]. *)
Definition under_header (lines : list str) (f l : str) : Prop :=
  exists before between after,
    lines = before ++ [new_file_header f] ++ between ++ [l] ++ after
    /\ no_header between.

(** The reading of the specification for the storage of changed lines: a
    changed line under the header of a recognized file is stored with its
    marker stripped. *)
Definition stored_without_marker (result : str) : Prop :=
  forall f l,
    under_header (split newline result) f l ->
    is_change_line l = true ->
    truthy f && _is_code_file f = true ->
    In (slice_from 1 l) (stored f (parse_diff result)).

(** A store in which no repository is mapped to an empty list.  Every
    store that [save_analysis] and [clear_repo_history] produce from a
    missing or unreadable file is of this kind. *)
Definition no_empty_list (d : history_manager.disk) : Prop :=
  forall repo_url,
    history_manager.load_all_history d !! repo_url <> Some [].

(** A score between 0 and 100: an [int] or a finite [float]. *)
Definition in_range (v : value) : Prop :=
  match v with
  | VInt z => (0 <= z <= 100)%Z
  | VFloat (FFinite q) => (0 <= q <= 100)%Q
  | _ => False
  end.

(** The result that stands for a failed unified analysis: no score and no
    findings. *)
Definition zero_score_no_findings (r : value) : Prop :=
  field "score" r = Some (VInt 0) /\ field "issues" r = Some (VList []).

(** The same for a failed feature-loss analysis. *)
Definition zero_loss_score_no_changes (r : value) : Prop :=
  field "feature_loss_score" r = Some (VInt 0)
  /\ field "feature_changes" r = Some (VList []).

(** No record of the list has its [last_commit_hash] set. *)
Definition none_analyzed (repo_history : list history_manager.entry) : Prop :=
  Forall (fun e => supplied (history_manager.last_commit_hash e) = None)
    repo_history.

(** The numbered entries of the lines of a file, the first line having the
    number [i]. *)
Fixpoint entries_from (i : Z) (lines : list str) : list str :=
  match lines with
  | [] => []
  | line :: rest =>
      ComplianceAgent.line_entry i line :: entries_from (i + 1)%Z rest
  end.

(** The block of a file in the summary: the line that names the file, the
    numbered lines [content], and a line break. *)
Definition file_block (file_name content : str) : str :=
  "--- " ++ file_name ++ " ---" ++ [newline] ++ content ++ [newline].

(** [content] is made of whole numbered lines of [lines] within the budget
    of 3000 characters: the first [k] of them, where the next one, if there
    is one, does not fit any more. *)
Definition whole_lines_within_budget (lines : list str) (content : str)
  : Prop :=
  exists k,
    k <= length lines
    /\ content = concat (take k (entries_from 1 lines))
    /\ (len content <= 3000)%Z
    /\ forall e, entries_from 1 lines !! k = Some e ->
         (len content + len e > 3000)%Z.

(** The text [text] holds, for every file of the events [log] that was
    opened and read, the block of this file with whole numbered lines
    within the budget.  Said of the text that [_get_code_summary] returns,
    this is the reading of the specification for the budget of a file. *)
Definition emitted_whole (text : str) (log : list ComplianceAgent.event)
  : Prop :=
  forall below file file_path lines,
    In (ComplianceAgent.Opened below file file_path) log ->
    ComplianceAgent.lines file = Some lines ->
    exists before content after,
      text = before ++ file_block (ComplianceAgent.name file) content ++ after
      /\ whole_lines_within_budget lines content.

(** Somewhere in [text], [header] occurs with a line break after it. *)
Fixpoint header_then_break (header text : str) : bool :=
  match text with
  | [] => false
  | _ :: rest =>
      if startswith header text
      then existsb (ascii_eqb newline) (skipn (length header) text)
           || header_then_break header rest
      else header_then_break header rest
  end.

(** The readings of the specification for the history file: clearing a
    repository for which [get_repo_history] finds no record returns
    [False]; and the read of a file, whatever it holds, returns. *)
Definition clear_without_records (d : history_manager.disk)
    (repo_url : str) : Prop :=
  history_manager.get_repo_history repo_url d = [] ->
  fst (history_manager.clear_repo_history repo_url d) = false.
Definition read_returns (f : history_manager.any_file) (repo_url : str)
  : Prop :=
  exists v, history_manager.AnyFile.get_repo_history repo_url f = Return v.

(** The events that the summarizer may cause: it walks no directory below
    an ignored one, and opens no file there, no file with a skipped suffix
    and no file of more than 102400 bytes. *)
Definition below_kept (below : list str) : Prop :=
  Forall (fun d => ComplianceAgent.ignored d = false) below.
Definition permitted (ev : ComplianceAgent.event) : Prop :=
  match ev with
  | ComplianceAgent.Walked below _ => below_kept below
  | ComplianceAgent.Opened below file _ =>
      below_kept below
      /\ endswith_any ComplianceAgent.skipped_suffixes
           (ComplianceAgent.name file) = false
      /\ exists sz, ComplianceAgent.size file = Some sz /\ (sz <= 102400)%Z
  end.

(** What git prints for one commit under [--pretty=format:%H|%s|%ai|%an],
    and for a list of commits, newest first. *)
Definition format_commit (c : commit) : str :=
  hash c ++ "|" ++ message c ++ "|" ++ date c ++ "|" ++ author c.
Definition log_output (commits : list commit) : str :=
  join [newline] (map format_commit commits).

(** A commit that git can print in one line and the reader can receive:
    no field holds a line break, the hash holds neither the separator [|]
    nor white space, the author does not end with white space, and the line
    holds no carriage return, which the text mode of [subprocess] turns
    into a line break. *)
Definition carriage_return : ascii := "013"%char.
Definition plain (s : str) : Prop :=
  ~ In pipe s /\ ~ In newline s.
Definition printed_commit (c : commit) : Prop :=
  plain (hash c) /\ Forall (fun a => isspace a = false) (hash c)
  /\ ~ In newline (message c) /\ ~ In newline (date c)
  /\ ~ In newline (author c)
  /\ (forall a, last (author c) = Some a -> isspace a = false)
  /\ ~ In carriage_return (format_commit c).

(** The separator occurs in neither the subject nor the date: the four
    fields of the printed line can be told apart. *)
Definition well_formed_commit (c : commit) : Prop :=
  printed_commit c /\ ~ In pipe (message c) /\ ~ In pipe (date c).

(** The command line that asks git for at most [n] commits, one line
    each. *)
Definition git_log (repo_path : str) (n : Z) : list str :=
  [ "git" : str; "-C" : str; repo_path; "log" : str;
    "--max-count=" ++ (pretty n : string);
    "--pretty=format:%H|%s|%ai|%an" : str ].

(** The number of lines of a text that are not empty. *)
Definition printed_lines (stdout : str) : Z :=
  len (List.filter truthy (split newline stdout)).

(** What the reader relies on git for: asked for at most [n] commits, one
    line each, a run that completes prints at most [n] lines. *)
Definition honours_max_count (check_output : list str -> CommitReader.outcome)
  : Prop :=
  forall repo_path n stdout,
    (0 <= n)%Z ->
    check_output (git_log repo_path n) = CommitReader.Ran (Completed stdout) ->
    (printed_lines stdout <= n)%Z.

(** The reading of the specification for a command that errors: whenever
    the call of git does not complete, the reader returns the empty list. *)
Definition empty_on_error (check_output : list str -> CommitReader.outcome)
    (repo_path : str) (max_commits : Z) : Prop :=
  (forall stdout,
     check_output (git_log repo_path max_commits)
     <> CommitReader.Ran (Completed stdout)) ->
  CommitReader.get_commit_history check_output repo_path max_commits
  = Return [].

(** A call of the store that changes it, and a sequence of such calls. *)
Inductive store_op :=
| Save (c : history_manager.save_call)
| Clear (repo_url : str).

Definition run_op (d : history_manager.disk) (op : store_op)
  : history_manager.disk :=
  match op with
  | Save c => history_manager.run_save d c
  | Clear repo_url => snd (history_manager.clear_repo_history repo_url d)
  end.

Definition run_ops (ops : list store_op) (d : history_manager.disk)
  : history_manager.disk :=
  fold_left run_op ops d.

(** Every stored list has between one and ten records. *)
Definition lists_bounded (d : history_manager.disk) : Prop :=
  forall repo_url es,
    history_manager.load_all_history d !! repo_url = Some es ->
    1 <= length es <= 10.

(** A file as the summarizer can see it: the size and the content of a file
    that it does not open are hidden, and so is the content of a file whose
    size it cannot read. *)
Definition hide (file : ComplianceAgent.file_node)
  : ComplianceAgent.file_node :=
  let hidden size :=
    {| ComplianceAgent.name := ComplianceAgent.name file;
       ComplianceAgent.size := size;
       ComplianceAgent.lines := None |} in
  if endswith_any ComplianceAgent.skipped_suffixes (ComplianceAgent.name file)
  then hidden None
  else match ComplianceAgent.size file with
       | None => hidden None
       | Some sz => if (sz >? 102400)%Z then hidden (Some sz) else file
       end.

(** A tree as the summarizer can see it: without the directories of ignored
    names, at every level, and with the files it does not open hidden. *)
Fixpoint seen (t : ComplianceAgent.tree) : ComplianceAgent.tree :=
  match t with
  | ComplianceAgent.Dir files dirs =>
      ComplianceAgent.Dir (map hide files)
        ((fix seen_dirs (ds : list (str * ComplianceAgent.tree))
            : list (str * ComplianceAgent.tree) :=
            match ds with
            | [] => []
            | (d, sub) :: rest =>
                if ComplianceAgent.ignored d then seen_dirs rest
                else (d, seen sub) :: seen_dirs rest
            end) dirs)
  end.

(** The backtick, the character of the code fences. *)
Definition backtick : ascii := "`"%char.

(** What the loop of [analyze_feature_loss] stores for one file. *)
Definition file_loss_of (deleted_lines : list str) : file_loss :=
  {| lines_deleted := len deleted_lines;
     sample_deletions := slice_to 10 deleted_lines |}.

(** A commit as the timeline shows it: the hash cut to eight characters. *)
Definition short_commit (c : commit) : commit :=
  {| hash := slice_to 8 (hash c); message := message c; date := date c;
     author := author c |}.

(** The recorded lines of a diff that start with [-], over all files. *)
Definition removed_lines (changes : dict (list str)) : list str :=
  List.filter (startswith "-") (concat (dict_values changes)).

(** The number of occurrences of a character. *)
Definition count_char (c : ascii) (s : str) : nat :=
  length (List.filter (ascii_eqb c) s).

(** A line of the log that [get_commit_history] can read: empty, or with at
    least three separators. *)
Definition readable_line (line : str) : Prop :=
  truthy line = false \/ 3 <= count_char pipe line.
Definition unreadable_line (line : str) : Prop :=
  truthy line = true /\ count_char pipe line < 3.

End Vocabulary.

(** ** A workspace with three commits

    The commits are [h3], [h2], [h1], newest first: [h2] deletes two lines
    of [a.py], [h3] adds the file [b.py]. *)

Module Scenario.

Import CommitAnalyzer.

Definition repo : str := "/tmp/ws".
Definition h3 : str := "c3c3c3c3c3c3c3c3c3c3c3c3c3c3c3c3c3c3c3c3".
Definition h2 : str := "b2b2b2b2b2b2b2b2b2b2b2b2b2b2b2b2b2b2b2b2".
Definition h1 : str := "a1a1a1a1a1a1a1a1a1a1a1a1a1a1a1a1a1a1a1a1".
Definition nl : str := [newline].

Definition c3 : commit :=
  {| hash := h3; message := "Add b.py";
     date := "2024-01-03 10:00:00 +0000"; author := "dev" |}.
Definition c2 : commit :=
  {| hash := h2; message := "Trim a.py";
     date := "2024-01-02 10:00:00 +0000"; author := "dev" |}.
Definition c1 : commit :=
  {| hash := h1; message := "Initial commit";
     date := "2024-01-01 10:00:00 +0000"; author := "dev" |}.

Definition log_text : str := Vocabulary.log_output [c3; c2; c1].

(** [git diff h1 h2 --unified=0] *)
Definition diff_1_2 : str :=
  "diff --git a/a.py b/a.py" ++ nl ++
  "index 83db48f..bf269f4 100644" ++ nl ++
  "--- a/a.py" ++ nl ++
  "+++ b/a.py" ++ nl ++
  "@@ -2,2 +1,0 @@" ++ nl ++
  "-def helper():" ++ nl ++
  "-    return 1" ++ nl.

(** [git diff h2 h3 --unified=0] *)
Definition diff_2_3 : str :=
  "diff --git a/b.py b/b.py" ++ nl ++
  "new file mode 100644" ++ nl ++
  "index 0000000..e69de29" ++ nl ++
  "--- /dev/null" ++ nl ++
  "+++ b/b.py" ++ nl ++
  "@@ -0,0 +1 @@" ++ nl ++
  "+print(1)" ++ nl.

(** [git diff h1 h3 --unified=0] *)
Definition diff_1_3 : str :=
  diff_1_2 ++ diff_2_3.

Definition check_output (cmd : list str) : subprocess_result :=
  if bool_decide (cmd = log_cmd repo 20) then Completed log_text
  else if bool_decide (cmd = log_cmd repo 50) then Completed log_text
  else if bool_decide (cmd = diff_cmd repo h1 h2) then Completed diff_1_2
  else if bool_decide (cmd = diff_cmd repo h2 h3) then Completed diff_2_3
  else if bool_decide (cmd = diff_cmd repo h1 h3) then Completed diff_1_3
  else CalledProcessError.

(** A working tree: two small files, a picture, a large file, and a
    [.git] directory next to a [src] directory. *)
Definition main_py : ComplianceAgent.file_node :=
  {| ComplianceAgent.name := "main.py";
     ComplianceAgent.size := Some 24%Z;
     ComplianceAgent.lines := Some [ "import os" ++ nl; "print(os.name)" ++ nl ]
  |}.
Definition logo_png : ComplianceAgent.file_node :=
  {| ComplianceAgent.name := "logo.png";
     ComplianceAgent.size := Some 2048%Z;
     ComplianceAgent.lines := None |}.
Definition dump_sql : ComplianceAgent.file_node :=
  {| ComplianceAgent.name := "dump.sql";
     ComplianceAgent.size := Some 102401%Z;
     ComplianceAgent.lines := Some [ "select 1;" ++ nl ] |}.
Definition git_head : ComplianceAgent.file_node :=
  {| ComplianceAgent.name := "HEAD";
     ComplianceAgent.size := Some 21%Z;
     ComplianceAgent.lines := Some [ "ref: refs/heads/main" ++ nl ] |}.
Definition util_py : ComplianceAgent.file_node :=
  {| ComplianceAgent.name := "util.py";
     ComplianceAgent.size := Some 9%Z;
     ComplianceAgent.lines := Some [ "x = 1" ++ nl; "y" : str ] |}.
Definition working_tree : ComplianceAgent.tree :=
  ComplianceAgent.Dir [main_py; logo_png; dump_sql]
    [ (".git" : str, ComplianceAgent.Dir [git_head] []);
      ("src" : str, ComplianceAgent.Dir [util_py] []) ].

(** A history file that does not exist yet, and twelve audits of one
    repository with one audit of another in between. *)
Definition fresh : history_manager.disk :=
  {| history_manager.HISTORY_FILE := history_manager.Absent;
     history_manager.writes := 0 |}.
Definition app_url : str := "https://github.com/acme/app".
Definition lib_url : str := "https://github.com/acme/lib".
Definition audit (repo_url : str) (n : Z) : history_manager.save_call :=
  {| history_manager.call_now := "2024-01-" ++ (pretty n : string);
     history_manager.call_repo_url := repo_url;
     history_manager.call_type := "Unified";
     history_manager.call_score := VFloat (FFinite (inject_Z (80 + n)));
     history_manager.call_summary := VStr "CLI Analysis completed.";
     history_manager.call_last_commit_hash := Some h3 |}.
Definition audits : list history_manager.save_call :=
  map (audit app_url) [10; 11; 12; 13; 14; 15]%Z
  ++ [audit lib_url 16%Z]
  ++ map (audit app_url) [17; 18; 19; 20; 21; 22]%Z.

(** A judgment service that answers the unified prompt with a fenced JSON
    object whose score is 150, and the feature-loss prompt with prose. *)
Definition dq : str := ["034"%char].
Definition answer_json : str :=
  "{" ++ dq ++ "score" ++ dq ++ ": 150, " ++ dq ++ "issues" ++ dq ++ ": []}".
Definition chain_invoke (p : ComplianceAgent.prompt)
    (inputs : list (str * str)) : result str :=
  match p with
  | ComplianceAgent.UnifiedPrompt =>
      Return ("```json" ++ nl ++ answer_json ++ nl ++ "```")
  | ComplianceAgent.FeatureLossPrompt =>
      Return ("I could not find any removed feature." : str)
  end.
Definition json_loads (text : str) : result value :=
  if bool_decide (text = answer_json)
  then Return (VDict [ ("score" : str, VInt 150);
                       ("issues" : str, VList []) ])
  else Raise JSONDecodeError.
Definition float_of_int (z : Z) : result pyfloat :=
  Return (FFinite (inject_Z z)).
Definition float_of_str (text : str) : result pyfloat := Raise ValueError.
Definition str_of_exn (e : exn) : str := "Expecting value".

(** A judgment service that answers the feature-loss prompt with a JSON
    object whose score is -5. *)
Definition loss_json : str :=
  "{" ++ dq ++ "feature_loss_score" ++ dq ++ ": -5, " ++ dq ++ "summary" ++ dq
  ++ ": " ++ dq ++ "ok" ++ dq ++ "}".
Definition loss_service (p : ComplianceAgent.prompt)
    (inputs : list (str * str)) : result str :=
  Return loss_json.
Definition loss_loads (text : str) : result value :=
  if bool_decide (text = loss_json)
  then Return (VDict [ ("feature_loss_score" : str, VInt (-5));
                       ("summary" : str, VStr "ok") ])
  else Raise JSONDecodeError.

(** The timeline that [get_feature_loss_context] builds here. *)
Definition entry_c3 : timeline_entry :=
  {| commit_ := {| hash := "c3c3c3c3"; message := "Add b.py";
                   date := "2024-01-03 10:00:00 +0000"; author := "dev" |};
     files_modified := ["b.py" : str];
     total_lines_deleted := 0 |}.
Definition entry_c2 : timeline_entry :=
  {| commit_ := {| hash := "b2b2b2b2"; message := "Trim a.py";
                   date := "2024-01-02 10:00:00 +0000"; author := "dev" |};
     files_modified := ["a.py" : str];
     total_lines_deleted := 2 |}.

(** A working tree of fifteen files over the budget of a file: the first
    line has 2991 characters and the second one does not fit any more. *)
Definition long_file (file_name : str) : ComplianceAgent.file_node :=
  {| ComplianceAgent.name := file_name;
     ComplianceAgent.size := Some 3091%Z;
     ComplianceAgent.lines :=
       Some [ repeat "x"%char (Z.to_nat 2990) ++ nl;
              repeat "y"%char 99 ++ nl ] |}.
Definition long_names : list str :=
  [ "f01.py" : str; "f02.py" : str; "f03.py" : str; "f04.py" : str;
    "f05.py" : str; "f06.py" : str; "f07.py" : str; "f08.py" : str;
    "f09.py" : str; "f10.py" : str; "f11.py" : str; "f12.py" : str;
    "f13.py" : str; "f14.py" : str; "f15.py" : str ].
Definition long_tree : ComplianceAgent.tree :=
  ComplianceAgent.Dir (map long_file long_names) [].
Definition long_summary : str * list ComplianceAgent.event :=
  ComplianceAgent._get_code_summary (Some long_tree) repo.

(** The tool of the workspace as the call sees it, and a machine without
    git. *)
Definition started (cmd : list str) : CommitReader.outcome :=
  CommitReader.Ran (check_output cmd).
Definition no_git (cmd : list str) : CommitReader.outcome :=
  CommitReader.NotStarted.

(** A history file in which a repository is mapped to the empty list, and
    a file that holds a JSON list. *)
Definition emptied : history_manager.disk :=
  {| history_manager.HISTORY_FILE :=
       history_manager.Stored {[ app_url := [] ]};
     history_manager.writes := 0 |}.
Definition json_list : history_manager.any_file :=
  history_manager.Loaded (VList []).

End Scenario.

(** * Properties *)

(** ** The audit history store *)

Section HistoryStore.

Import history_manager Vocabulary.

Implicit Types (d : disk) (repo_url other now : str).

Lemma slice_to_10 {A} (l : list A) : slice_to 10 l = take 10 l.
Proof. reflexivity. Qed.

Lemma load_dump history d : load_all_history (dump history d) = history.
Proof. reflexivity. Qed.

Lemma load_save now repo_url ty sc su h d :
  load_all_history (save_analysis now repo_url ty sc su h d)
  = <[repo_url :=
        take 10 ({| timestamp := now; type := ty; score := sc;
                    summary := su; last_commit_hash := h |}
                 :: get_repo_history repo_url d)]> (load_all_history d).
Proof.
  unfold save_analysis, get_repo_history. rewrite load_dump.
  destruct (load_all_history d !! repo_url) as [es|] eqn:E; simpl.
  - rewrite E. simpl. rewrite lookup_insert_eq. simpl.
    rewrite insert_insert_eq. reflexivity.
  - rewrite !lookup_insert_eq. simpl.
    rewrite !insert_insert_eq. reflexivity.
Qed.

Lemma get_save_same now repo_url ty sc su h d :
  get_repo_history repo_url (save_analysis now repo_url ty sc su h d)
  = take 10 ({| timestamp := now; type := ty; score := sc;
                summary := su; last_commit_hash := h |}
             :: get_repo_history repo_url d).
Proof.
  unfold get_repo_history at 1. rewrite load_save, lookup_insert_eq.
  reflexivity.
Qed.

Lemma load_save_other now repo_url ty sc su h d other :
  other <> repo_url ->
  load_all_history (save_analysis now repo_url ty sc su h d) !! other
  = load_all_history d !! other.
Proof.
  intros Hne. rewrite load_save, lookup_insert_ne by congruence.
  reflexivity.
Qed.

Lemma get_save_other now repo_url ty sc su h d other :
  other <> repo_url ->
  get_repo_history other (save_analysis now repo_url ty sc su h d)
  = get_repo_history other d.
Proof.
  intros Hne. unfold get_repo_history.
  rewrite load_save_other by assumption. reflexivity.
Qed.

Lemma take_app_take {A} (n : nat) (a b : list A) :
  take n (a ++ take n b) = take n (a ++ b).
Proof.
  rewrite !take_app, take_take. f_equal. f_equal. lia.
Qed.

Lemma get_run_save c repo_url d :
  get_repo_history repo_url (run_save d c)
  = if bool_decide (call_repo_url c = repo_url)
    then take 10 (entry_of c :: get_repo_history repo_url d)
    else get_repo_history repo_url d.
Proof.
  unfold run_save. case_bool_decide as E.
  - subst. apply get_save_same.
  - apply get_save_other. congruence.
Qed.

Lemma entries_for_cons repo_url c calls :
  entries_for repo_url (c :: calls)
  = if bool_decide (call_repo_url c = repo_url)
    then entry_of c :: entries_for repo_url calls
    else entries_for repo_url calls.
Proof.
  unfold entries_for. simpl. case_bool_decide; reflexivity.
Qed.

Lemma run_saves_cons c calls d :
  run_saves (c :: calls) d = run_saves calls (run_save d c).
Proof. reflexivity. Qed.

(** After a sequence of calls the list of a repository is made of the
    records of the calls for it, the last call first, followed by what was
    there before, cut to ten. *)
Lemma get_run_saves repo_url calls : forall d,
  length (get_repo_history repo_url d) <= 10 ->
  get_repo_history repo_url (run_saves calls d)
  = take 10 (rev (entries_for repo_url calls)
             ++ get_repo_history repo_url d).
Proof.
  induction calls as [|c calls IH]; intros d Hlen.
  - simpl. symmetry. apply take_ge. lia.
  - rewrite run_saves_cons, IH.
    + rewrite get_run_save, entries_for_cons.
      case_bool_decide as E.
      * rewrite take_app_take. change (rev (entry_of c :: ?l))
          with (rev l ++ [entry_of c]).
        rewrite <- app_assoc. reflexivity.
      * reflexivity.
    + rewrite get_run_save. case_bool_decide; [|assumption].
      rewrite length_take. lia.
Qed.

Lemma no_empty_list_fresh d :
  HISTORY_FILE d = Absent \/ HISTORY_FILE d = Unreadable -> no_empty_list d.
Proof.
  intros [E|E] r; unfold load_all_history; rewrite E, lookup_empty;
    discriminate.
Qed.

Lemma no_empty_list_save now repo_url ty sc su h d :
  no_empty_list d -> no_empty_list (save_analysis now repo_url ty sc su h d).
Proof.
  intros Hd r. rewrite load_save.
  destruct (decide (repo_url = r)) as [->|Hne].
  - rewrite lookup_insert_eq. discriminate.
  - rewrite lookup_insert_ne by assumption. apply Hd.
Qed.

Lemma no_empty_list_clear repo_url d :
  no_empty_list d -> no_empty_list (snd (clear_repo_history repo_url d)).
Proof.
  intros Hd r. unfold clear_repo_history.
  destruct (load_all_history d !! repo_url) eqn:E; simpl; [|apply Hd].
  rewrite load_dump. destruct (decide (repo_url = r)) as [->|Hne].
  - rewrite lookup_delete_eq. discriminate.
  - rewrite lookup_delete_ne by assumption. apply Hd.
Qed.

(** In such a store a repository has no records exactly when it is not a
    key of the mapping. *)
Lemma no_records_iff_absent repo_url d :
  no_empty_list d ->
  get_repo_history repo_url d = [] <-> load_all_history d !! repo_url = None.
Proof.
  intros Hd. unfold get_repo_history. specialize (Hd repo_url).
  destruct (load_all_history d !! repo_url) as [[|e es]|]; simpl;
    split; intros H; congruence.
Qed.

(** C4. After [N] calls of [save_analysis] for a repository that had no
    records, in any interleaving with calls for other repositories,
    [get_repo_history] returns exactly [min N 10] records: those of the
    calls for it, the newest first, cut to the ten most recent.  Each call
    puts its record at index 0 and cuts the list to ten. *)
Theorem C4_history_capped_newest_first d repo_url calls :
  get_repo_history repo_url d = [] ->
  get_repo_history repo_url (run_saves calls d)
  = take 10 (rev (entries_for repo_url calls))
  /\ length (get_repo_history repo_url (run_saves calls d))
     = Nat.min (length (entries_for repo_url calls)) 10
  /\ forall c d',
       call_repo_url c = repo_url ->
       get_repo_history repo_url (run_save d' c)
       = take 10 (entry_of c :: get_repo_history repo_url d').
Proof.
  intros Hnone.
  assert (Hrun : get_repo_history repo_url (run_saves calls d)
                 = take 10 (rev (entries_for repo_url calls))).
  { rewrite get_run_saves by (rewrite Hnone; simpl; lia).
    rewrite Hnone, app_nil_r. reflexivity. }
  split; [exact Hrun|]. split.
  - rewrite Hrun, length_take, length_rev. lia.
  - intros c d' Hc. rewrite get_run_save.
    rewrite bool_decide_eq_true_2 by assumption. reflexivity.
Qed.

(** C10. [save_analysis] for one repository leaves the stored list of
    every other repository as it was, whatever the store held; and
    [clear_repo_history] for a repository that is not a key returns
    [False] and neither changes nor writes the file. *)
Theorem C10_save_frame_and_clear_no_write d now repo_url ty sc su h :
  (forall other, other <> repo_url ->
     load_all_history (save_analysis now repo_url ty sc su h d) !! other
     = load_all_history d !! other
     /\ get_repo_history other (save_analysis now repo_url ty sc su h d)
        = get_repo_history other d)
  /\ (load_all_history d !! repo_url = None ->
        fst (clear_repo_history repo_url d) = false
        /\ HISTORY_FILE (snd (clear_repo_history repo_url d))
           = HISTORY_FILE d
        /\ writes (snd (clear_repo_history repo_url d)) = writes d).
Proof.
  split.
  - intros other Hne. split.
    + apply load_save_other; assumption.
    + apply get_save_other; assumption.
  - intros E. unfold clear_repo_history. rewrite E. auto.
Qed.

End HistoryStore.

(** ** Strings and dictionaries *)

Section PyFacts.

Implicit Types (p s r : str) (c sep : ascii).

Lemma ascii_eqb_true a b : ascii_eqb a b = true <-> a = b.
Proof. unfold ascii_eqb. apply Ascii.eqb_eq. Qed.

Lemma ascii_eqb_false a b : ascii_eqb a b = false <-> a <> b.
Proof. unfold ascii_eqb. apply Ascii.eqb_neq. Qed.

Lemma startswith_app p r : startswith p (p ++ r) = true.
Proof.
  induction p as [|a p IH]; simpl; [reflexivity|].
  rewrite IH, andb_true_r. apply ascii_eqb_true. reflexivity.
Qed.

Lemma startswith_inv p : forall s,
  startswith p s = true -> exists r, s = p ++ r.
Proof.
  induction p as [|a p IH]; intros s H.
  - exists s. reflexivity.
  - destruct s as [|b s]; simpl in H; [discriminate|].
    apply andb_true_iff in H as [Hab Hps].
    apply ascii_eqb_true in Hab as ->.
    destruct (IH _ Hps) as [r ->]. exists r. reflexivity.
Qed.

Lemma startswith_spec p s : startswith p s = true <-> exists r, s = p ++ r.
Proof.
  split; [apply startswith_inv|]. intros [r ->]. apply startswith_app.
Qed.

Lemma endswith_spec p s : endswith p s = true <-> exists r, s = r ++ p.
Proof.
  unfold endswith. rewrite startswith_spec. split.
  - intros [r H]. exists (rev r).
    rewrite <- (rev_involutive s), H, rev_app_distr, rev_involutive.
    reflexivity.
  - intros [r ->]. exists (rev r). apply rev_app_distr.
Qed.

(** A longer prefix implies a shorter one. *)
Lemma startswith_prefix p q s :
  startswith (p ++ q) s = true -> startswith p s = true.
Proof.
  rewrite !startswith_spec. intros [r ->]. exists (q ++ r).
  rewrite app_assoc. reflexivity.
Qed.

Lemma str_eqb_true a b : str_eqb a b = true <-> a = b.
Proof. unfold str_eqb. apply bool_decide_eq_true. Qed.

Lemma str_eqb_refl a : str_eqb a a = true.
Proof. apply str_eqb_true. reflexivity. Qed.

Lemma str_eqb_false a b : str_eqb a b = false <-> a <> b.
Proof. unfold str_eqb. apply bool_decide_eq_false. Qed.

Lemma dict_get_set {V} (k k' : str) (v : V) (d : dict V) :
  dict_get k' (dict_set k v d)
  = if str_eqb k k' then Some v else dict_get k' d.
Proof.
  induction d as [|[k0 v0] d IH]; simpl.
  - reflexivity.
  - destruct (str_eqb k0 k) eqn:E0; simpl.
    + apply str_eqb_true in E0 as ->. destruct (str_eqb k k'); reflexivity.
    + rewrite IH. destruct (str_eqb k0 k') eqn:E1; [|reflexivity].
      apply str_eqb_true in E1 as ->.
      destruct (str_eqb k k') eqn:E2; [|reflexivity].
      apply str_eqb_true in E2 as ->. rewrite str_eqb_refl in E0.
      discriminate.
Qed.

Lemma dict_keys_set {V} (k k' : str) (v : V) (d : dict V) :
  In k' (dict_keys (dict_set k v d)) -> k' = k \/ In k' (dict_keys d).
Proof.
  unfold dict_keys. induction d as [|[k0 v0] d IH]; simpl.
  - intros [<-|[]]. left. reflexivity.
  - destruct (str_eqb k0 k) eqn:E0; simpl.
    + intros [<-|H]; auto.
    + intros [<-|H]; auto. destruct (IH H); auto.
Qed.

Lemma dict_get_in_keys {V} (k : str) (d : dict V) :
  In k (dict_keys d) <-> dict_get k d <> None.
Proof.
  unfold dict_keys. induction d as [|[k0 v0] d IH]; simpl.
  - split; [intros []|congruence].
  - destruct (str_eqb k0 k) eqn:E0.
    + apply str_eqb_true in E0. split; [discriminate|auto].
    + apply str_eqb_false in E0. rewrite <- IH. split; [|auto].
      intros [H|H]; [contradiction|assumption].
Qed.

End PyFacts.

(** ** The diff extractor *)

Section DiffExtractor.

Import CommitAnalyzer Vocabulary.

Implicit Types (f l line : str) (lines : list str)
  (changes : dict (list str)) (st : diff_state).

Lemma stored_record_line f f' l changes :
  stored f' (record_line f l changes)
  = if str_eqb f f' then stored f changes ++ [l] else stored f' changes.
Proof.
  unfold stored, record_line, dict_in.
  destruct (dict_get f changes) as [old|] eqn:E; cbn match.
  - rewrite (dict_get_set f f'), E. destruct (str_eqb f f'); reflexivity.
  - rewrite (dict_get_set f f'), (dict_get_set f f), str_eqb_refl. simpl.
    destruct (str_eqb f f') eqn:E'; [reflexivity|].
    rewrite (dict_get_set f f'), E'. reflexivity.
Qed.

Lemma keys_record_line f f' l changes :
  In f' (dict_keys (record_line f l changes)) ->
  f' = f \/ In f' (dict_keys changes).
Proof.
  unfold record_line. intros H. apply dict_keys_set in H as [H|H]; auto.
  destruct (dict_in f changes); auto.
  apply dict_keys_set in H. assumption.
Qed.

Lemma is_change_line_markers l :
  is_change_line l = true ->
  (startswith "-" l = true \/ startswith "+" l = true)
  /\ startswith "---" l = false /\ startswith "+++" l = false.
Proof.
  unfold is_change_line. intros H.
  apply andb_true_iff in H as [H1 H2].
  apply orb_true_iff in H1. apply negb_true_iff, orb_false_iff in H2.
  tauto.
Qed.

(** A new-file header is never a changed line. *)
Lemma header_not_change_line l :
  startswith "+++ b/" l = true -> is_change_line l = false.
Proof.
  intros H. unfold is_change_line.
  assert (startswith "+++" l = true) as ->
    by (apply (startswith_prefix "+++" " b/"); exact H).
  rewrite orb_true_r, andb_false_r. reflexivity.
Qed.

(** One step of the loop, by cases. *)
Lemma diff_step_header cur changes line :
  startswith "+++ b/" line = true ->
  diff_step (cur, changes) line = (Some (slice_from 6 line), changes).
Proof. intros H. unfold diff_step. rewrite H. reflexivity. Qed.

Lemma diff_step_record f changes line :
  startswith "+++ b/" line = false -> is_change_line line = true ->
  truthy f && _is_code_file f = true ->
  diff_step (Some f, changes) line = (Some f, record_line f line changes).
Proof. intros H1 H2 H3. unfold diff_step. rewrite H1, H2, H3. reflexivity. Qed.

Lemma diff_step_current st line :
  startswith "+++ b/" line = false -> fst (diff_step st line) = fst st.
Proof.
  intros H. destruct st as [cur changes]. unfold diff_step. rewrite H.
  destruct (is_change_line line); [|reflexivity].
  destruct cur as [f|]; [|reflexivity].
  destruct (truthy f && _is_code_file f); reflexivity.
Qed.

(** A step either leaves the dictionary as it is, or records the line, a
    changed one, for the current file, a recognized one. *)
Lemma diff_step_changes st line :
  snd (diff_step st line) = snd st
  \/ exists f, fst st = Some f /\ is_change_line line = true
       /\ truthy f && _is_code_file f = true
       /\ snd (diff_step st line) = record_line f line (snd st).
Proof.
  destruct st as [cur changes]. unfold diff_step.
  destruct (startswith "+++ b/" line); [left; reflexivity|].
  destruct (is_change_line line) eqn:Hc; [|left; reflexivity].
  destruct cur as [f|]; [|left; reflexivity].
  destruct (truthy f && _is_code_file f) eqn:Hf; [|left; reflexivity].
  right. exists f. auto.
Qed.

Lemma diff_loop_app lines1 lines2 st :
  diff_loop (lines1 ++ lines2) st = diff_loop lines2 (diff_loop lines1 st).
Proof. apply fold_left_app. Qed.

Lemma diff_loop_cons line lines st :
  diff_loop (line :: lines) st = diff_loop lines (diff_step st line).
Proof. reflexivity. Qed.

(** Without a header the current file stays. *)
Lemma diff_loop_current lines : forall st,
  no_header lines -> fst (diff_loop lines st) = fst st.
Proof.
  induction lines as [|line lines IH]; intros st H; [reflexivity|].
  inversion H; subst. rewrite diff_loop_cons, IH by assumption.
  apply diff_step_current. assumption.
Qed.

(** Before the first header nothing is recorded. *)
Lemma diff_loop_no_file lines : forall changes,
  no_header lines -> diff_loop lines (None, changes) = (None, changes).
Proof.
  induction lines as [|line lines IH]; intros changes H; [reflexivity|].
  inversion H as [|? ? Hline Hrest]; subst. rewrite diff_loop_cons.
  unfold diff_step. rewrite Hline.
  destruct (is_change_line line); apply IH; assumption.
Qed.

(** Recorded lines stay recorded. *)
Lemma diff_loop_keeps lines : forall st f l,
  In l (stored f (snd st)) -> In l (stored f (snd (diff_loop lines st))).
Proof.
  induction lines as [|line lines IH]; intros st f l H; [exact H|].
  rewrite diff_loop_cons. apply IH.
  destruct (diff_step_changes st line) as [-> | (f0 & _ & _ & _ & ->)];
    [exact H|].
  rewrite stored_record_line. destruct (str_eqb f0 f) eqn:E; [|exact H].
  apply str_eqb_true in E as ->. apply in_or_app. left. exact H.
Qed.

(** What is recorded was there before or is a changed line of the text,
    unaltered. *)
Lemma diff_loop_sound lines : forall st f l,
  In l (stored f (snd (diff_loop lines st))) ->
  In l (stored f (snd st)) \/ (In l lines /\ is_change_line l = true).
Proof.
  induction lines as [|line lines IH]; intros st f l H; [left; exact H|].
  rewrite diff_loop_cons in H. apply IH in H as [H|[H1 H2]].
  - destruct (diff_step_changes st line) as [E | (f0 & _ & Hc & _ & E)];
      rewrite E in H; [left; exact H|].
    rewrite stored_record_line in H.
    destruct (str_eqb f0 f) eqn:E'; [|left; exact H].
    apply str_eqb_true in E' as ->.
    apply in_app_or in H as [H|[<-|[]]]; [left; exact H|].
    right. split; [left; reflexivity|exact Hc].
  - right. split; [right; exact H1|exact H2].
Qed.

(** Every key is a recognized file. *)
Lemma diff_loop_keys lines : forall st,
  Forall (fun f => _is_code_file f = true) (dict_keys (snd st)) ->
  Forall (fun f => _is_code_file f = true)
    (dict_keys (snd (diff_loop lines st))).
Proof.
  induction lines as [|line lines IH]; intros st H; [exact H|].
  rewrite diff_loop_cons. apply IH.
  destruct (diff_step_changes st line) as [-> | (f0 & _ & _ & Hf & ->)];
    [exact H|].
  apply andb_true_iff in Hf as [_ Hf].
  rewrite Forall_forall in *. intros f' Hin.
  apply list_elem_of_In, keys_record_line in Hin as [->|Hin]; [exact Hf|].
  apply H, list_elem_of_In. exact Hin.
Qed.

Lemma parse_diff_keys result :
  Forall (fun f => _is_code_file f = true) (dict_keys (parse_diff result)).
Proof. unfold parse_diff. apply diff_loop_keys. constructor. Qed.

Lemma is_code_file_spec f :
  _is_code_file f = true
  <-> exists stem ext, In ext code_extensions /\ f = stem ++ ext.
Proof.
  unfold _is_code_file. rewrite existsb_exists. split.
  - intros (ext & Hin & H). apply endswith_spec in H as [stem ->].
    exists stem, ext. auto.
  - intros (stem & ext & Hin & ->). exists ext. split; [exact Hin|].
    apply endswith_spec. exists stem. reflexivity.
Qed.

End DiffExtractor.

Section DiffProperties.

Import CommitAnalyzer Vocabulary.

Variable check_output : list str -> subprocess_result.
Variable repo_path : str.

Lemma full_diff_completed old_commit new_commit result :
  check_output (diff_cmd repo_path old_commit new_commit) = Completed result ->
  get_full_diff_between_commits check_output repo_path old_commit new_commit
  = parse_diff result.
Proof.
  intros H. unfold get_full_diff_between_commits. rewrite H. reflexivity.
Qed.

Lemma full_diff_keys old_commit new_commit :
  Forall (fun f => _is_code_file f = true)
    (dict_keys (get_full_diff_between_commits check_output repo_path
                  old_commit new_commit)).
Proof.
  unfold get_full_diff_between_commits.
  destruct (check_output _); [apply parse_diff_keys|constructor].
Qed.

(** C2, as amended.  For the text [result] of a diff: every stored line is
    a line of the text, unaltered, that starts with [+] or [-] and with
    neither [+++] nor [---], so the marker is kept and a header is never
    stored; every such line that stands under the ["+++ b/"] header of a
    recognized, non-empty path is stored for that path; and the lines
    before the first ["+++ b/"] header leave no trace in the result. *)
Theorem C2_changed_lines_stored_verbatim old_commit new_commit result :
  check_output (diff_cmd repo_path old_commit new_commit) = Completed result ->
  let lines := split newline result in
  let changes :=
    get_full_diff_between_commits check_output repo_path
      old_commit new_commit in
  (forall f l, In l (stored f changes) ->
     In l lines
     /\ (startswith "+" l = true \/ startswith "-" l = true)
     /\ startswith "+++" l = false /\ startswith "---" l = false)
  /\ (forall f l,
        under_header lines f l -> is_change_line l = true ->
        truthy f && _is_code_file f = true ->
        In l (stored f changes))
  /\ (forall before rest,
        lines = before ++ rest -> no_header before ->
        changes = snd (diff_loop rest (None, []))).
Proof.
  intros Hout lines changes. subst changes.
  rewrite (full_diff_completed _ _ _ Hout). unfold parse_diff.
  fold lines. split; [|split].
  - intros f l Hin. apply diff_loop_sound in Hin as [[]|[Hl Hc]].
    apply is_change_line_markers in Hc. tauto.
  - intros f l (before & between & after & -> & Hbetween) Hc Hf.
    rewrite !diff_loop_app. apply diff_loop_keeps.
    destruct (diff_loop before (None, [])) as [cur changes].
    assert (Hhdr : startswith "+++ b/" (new_file_header f) = true)
      by apply startswith_app.
    change (diff_loop [new_file_header f] (cur, changes))
      with (diff_step (cur, changes) (new_file_header f)).
    rewrite (diff_step_header _ _ _ Hhdr).
    assert (Hf6 : slice_from 6 (new_file_header f) = f) by reflexivity.
    rewrite Hf6.
    pose proof (diff_loop_current between (Some f, changes) Hbetween) as Hcur.
    destruct (diff_loop between (Some f, changes)) as [cur' changes'].
    simpl in Hcur. subst cur'.
    change (diff_loop [l] (Some f, changes'))
      with (diff_step (Some f, changes') l).
    rewrite diff_step_record; [| |exact Hc|exact Hf].
    + simpl. rewrite stored_record_line, str_eqb_refl.
      apply in_or_app. right. left. reflexivity.
    + destruct (startswith "+++ b/" l) eqn:E; [|reflexivity].
      apply header_not_change_line in E. congruence.
  - intros before rest -> Hbefore.
    rewrite diff_loop_app, diff_loop_no_file by assumption. reflexivity.
Qed.

(** C7. Every key of the dictionary returned by
    [get_full_diff_between_commits] ends with one of the recognized
    extensions, of which [.html] and [.css] are two; a path that ends with
    none of them is not a key. *)
Theorem C7_only_recognized_files old_commit new_commit :
  let changes :=
    get_full_diff_between_commits check_output repo_path
      old_commit new_commit in
  Forall (fun f => exists stem ext, In ext code_extensions /\ f = stem ++ ext)
    (dict_keys changes)
  /\ (forall f, _is_code_file f = false -> dict_get f changes = None)
  /\ In (".html" : str) code_extensions /\ In (".css" : str) code_extensions.
Proof.
  intros changes. pose proof (full_diff_keys old_commit new_commit) as Hkeys.
  fold changes in Hkeys. split; [|split; [|split]].
  - eapply Forall_impl; [exact Hkeys|]. intros f Hf.
    apply is_code_file_spec. exact Hf.
  - intros f Hf. destruct (dict_get f changes) eqn:E; [|reflexivity].
    assert (Hin : In f (dict_keys changes))
      by (apply dict_get_in_keys; congruence).
    rewrite Forall_forall in Hkeys.
    apply list_elem_of_In, Hkeys in Hin. congruence.
  - unfold code_extensions. simpl. tauto.
  - unfold code_extensions. simpl. tauto.
Qed.

End DiffProperties.

(** The three-commit workspace: the diff of [h1] and [h2] is recorded with
    the markers. *)
Lemma C2_on_scenario :
  Scenario.check_output (CommitAnalyzer.diff_cmd Scenario.repo Scenario.h1
                           Scenario.h2)
  = CommitAnalyzer.Completed Scenario.diff_1_2
  /\ In ("-def helper():" : str)
       (Vocabulary.stored "a.py"
          (CommitAnalyzer.get_full_diff_between_commits Scenario.check_output
             Scenario.repo Scenario.h1 Scenario.h2)).
Proof.
  split; [reflexivity|].
  apply (C2_changed_lines_stored_verbatim Scenario.check_output Scenario.repo
           Scenario.h1 Scenario.h2 Scenario.diff_1_2 eq_refl).
  - exists [ "diff --git a/a.py b/a.py" : str;
             "index 83db48f..bf269f4 100644" : str; "--- a/a.py" : str ],
           [ "@@ -2,2 +1,0 @@" : str ], [ "-    return 1" : str; [] ].
    split; [reflexivity|]. repeat constructor.
  - reflexivity.
  - reflexivity.
Defined.

(** C2, as stated, fails on the diff of [h1] and [h2]: the removed line
    [def helper():] is stored as [-def helper():], with its marker. *)
Lemma C2_marker_not_stripped :
  Vocabulary.stored "a.py" (CommitAnalyzer.parse_diff Scenario.diff_1_2)
  = [ "-def helper():" : str; "-    return 1" : str ]
  /\ ~ Vocabulary.stored_without_marker Scenario.diff_1_2.
Proof.
  split; [reflexivity|]. intros H.
  specialize (H ("a.py" : str) ("-def helper():" : str)).
  assert (Hin : In (slice_from 1 ("-def helper():" : str))
                  (Vocabulary.stored "a.py"
                     (CommitAnalyzer.parse_diff Scenario.diff_1_2))).
  { apply H; [|reflexivity|reflexivity].
    exists [ "diff --git a/a.py b/a.py" : str;
             "index 83db48f..bf269f4 100644" : str; "--- a/a.py" : str ],
           [ "@@ -2,2 +1,0 @@" : str ], [ "-    return 1" : str; [] ].
    split; [reflexivity|]. repeat constructor. }
  vm_compute in Hin. destruct Hin as [Hin|[Hin|[]]]; discriminate Hin.
Qed.

(** C1, on the three-commit workspace: the timeline has two entries, one
    for [h3], which only adds [b.py], with no deleted line, and one for
    [h2] with the two lines deleted from [a.py]. *)
Theorem C1_timeline_counts_additions :
  CommitAnalyzer.get_feature_loss_context Scenario.check_output Scenario.repo
    20
  = Return (CommitAnalyzer.Context
      {| CommitAnalyzer.total_commits_analyzed := 3;
         CommitAnalyzer.commits_with_deletions := 2;
         CommitAnalyzer.deletion_timeline :=
           [Scenario.entry_c3; Scenario.entry_c2];
         CommitAnalyzer.oldest_commit :=
           Some ("a1a1a1a1" : str, "2024-01-01 10:00:00 +0000" : str);
         CommitAnalyzer.newest_commit :=
           Some ("c3c3c3c3" : str, "2024-01-03 10:00:00 +0000" : str) |}).
Proof. vm_compute. reflexivity. Qed.

(** ** The range of an incremental audit *)

Section RangeSelection.

Import CommitAnalyzer history_manager ComplianceAgent ci_gate Vocabulary.

Implicit Types (repo_history : list entry) (commit_history : list commit)
  (base head : option str).

Lemma supplied_truthy o x : supplied o = Some x -> supplied (Some x) = Some x.
Proof.
  destruct o as [s|]; simpl; [|discriminate].
  destruct (truthy s) eqn:E; [|discriminate].
  intros [= <-]. rewrite E. reflexivity.
Qed.

Lemma supplied_idem o : supplied (supplied o) = supplied o.
Proof.
  destruct (supplied o) as [x|] eqn:E; [|reflexivity].
  exact (supplied_truthy _ _ E).
Qed.

Lemma last_analyzed_supplied repo_history :
  supplied (last_analyzed_commit repo_history)
  = last_analyzed_commit repo_history.
Proof.
  induction repo_history as [|e rest IH]; simpl; [reflexivity|].
  destruct (supplied (last_commit_hash e)) as [x|] eqn:E; [|exact IH].
  exact (supplied_truthy _ _ E).
Qed.

Lemma supplied_final_base base analyzed :
  supplied (final_base base analyzed)
  = match supplied base with
    | Some b => Some b
    | None => supplied analyzed
    end.
Proof.
  unfold final_base. destruct (supplied base) as [b|] eqn:E; [|reflexivity].
  exact (supplied_truthy _ _ E).
Qed.

(** The scan stops at the first record whose hash is set. *)
Lemma last_analyzed_first before e after x :
  none_analyzed before -> supplied (last_commit_hash e) = Some x ->
  last_analyzed_commit (before ++ e :: after) = Some x.
Proof.
  intros Hbefore He. induction Hbefore as [|e' before He' _ IH]; simpl.
  - rewrite He. reflexivity.
  - rewrite He'. exact IH.
Qed.

Lemma last_analyzed_none repo_history :
  none_analyzed repo_history -> last_analyzed_commit repo_history = None.
Proof.
  intros H. induction H as [|e rest He _ IH]; simpl; [reflexivity|].
  rewrite He. exact IH.
Qed.

Lemma two_commits commit_history :
  (2 <= len commit_history)%Z ->
  exists newest oldest,
    first_item commit_history = Return newest
    /\ last_item commit_history = Return oldest
    /\ head commit_history = Some newest
    /\ last commit_history = Some oldest.
Proof.
  unfold len, first_item, last_item. intros Hlen.
  destruct commit_history as [|newest rest]; simpl in Hlen; [lia|].
  destruct (last (newest :: rest)) as [oldest|] eqn:E.
  - exists newest, oldest. auto.
  - apply last_None in E. discriminate.
Qed.

(** C5. With at least two commits in the workspace, the pair (base, head)
    is resolved in this order: a head chosen by the caller is the head,
    otherwise the head is the newest commit; a base chosen by the caller is
    the base, otherwise the base is the [last_commit_hash] of the first
    stored record, newest first, in which it is set, otherwise the oldest
    commit.  "Chosen" and "set" mean: neither [None] nor the empty string.
    With no stored record the range is (oldest, newest). *)
Theorem C5_range_resolution repo_history commit_history base head :
  (2 <= len commit_history)%Z ->
  exists newest oldest,
    List.head commit_history = Some newest
    /\ last commit_history = Some oldest
    /\ select_range repo_history commit_history base head
       = Return
           (match supplied base with
            | Some b => b
            | None =>
                match last_analyzed_commit repo_history with
                | Some analyzed => analyzed
                | None => hash oldest
                end
            end,
            match supplied head with
            | Some h => h
            | None => hash newest
            end)
    /\ (forall before e after x,
          repo_history = before ++ e :: after -> none_analyzed before ->
          supplied (last_commit_hash e) = Some x ->
          last_analyzed_commit repo_history = Some x)
    /\ (none_analyzed repo_history -> last_analyzed_commit repo_history = None)
    /\ select_range [] commit_history None None
       = Return (hash oldest, hash newest).
Proof.
  intros Hlen.
  destruct (two_commits _ Hlen) as (newest & oldest & Hf & Hl & Hh & Hla).
  exists newest, oldest. split; [exact Hh|]. split; [exact Hla|].
  split; [|split; [|split]].
  - unfold select_range, commit_range, final_head.
    rewrite supplied_idem, supplied_final_base, last_analyzed_supplied, Hf, Hl.
    destruct (supplied head) as [h|]; destruct (supplied base) as [b|];
      destruct (last_analyzed_commit repo_history); reflexivity.
  - intros before e after x -> Hbefore He.
    apply last_analyzed_first; assumption.
  - apply last_analyzed_none.
  - unfold select_range, commit_range. simpl. rewrite Hf, Hl. reflexivity.
Qed.

End RangeSelection.

(** The three-commit workspace with an empty history: the range is
    ([h1], [h3]). *)
Lemma C5_on_scenario :
  (2 <= len [Scenario.c3; Scenario.c2; Scenario.c1])%Z
  /\ exists newest oldest,
       ci_gate.select_range [] [Scenario.c3; Scenario.c2; Scenario.c1]
         None None
       = Return (CommitAnalyzer.hash oldest, CommitAnalyzer.hash newest)
       /\ newest = Scenario.c3 /\ oldest = Scenario.c1.
Proof.
  assert (Hlen : (2 <= len [Scenario.c3; Scenario.c2; Scenario.c1])%Z)
    by (vm_compute; discriminate).
  split; [exact Hlen|].
  destruct (C5_range_resolution [] [Scenario.c3; Scenario.c2; Scenario.c1]
              None None Hlen)
    as (newest & oldest & Hn & Ho & _ & _ & _ & Hrange).
  exists newest, oldest. split; [exact Hrange|].
  split; [injection Hn as <-|injection Ho as <-]; reflexivity.
Defined.

(** The call of [ci_gate.py], which passes the scanned hash as the base and
    no head, resolves the same range. *)
Lemma ci_gate_range repo_history commit_history :
  ComplianceAgent.commit_range commit_history
    (ci_gate.last_analyzed_commit repo_history) None
  = ci_gate.select_range repo_history commit_history None None.
Proof. reflexivity. Qed.

(** ** Scores at the boundary of the judgment step *)

Section Scores.

Import CommitAnalyzer ComplianceAgent ci_gate Vocabulary.

Variable chain_invoke : prompt -> list (str * str) -> result str.
Variable json_loads : str -> result value.
Variable float_of_int : Z -> result pyfloat.
Variable float_of_str : str -> result pyfloat.
Variable str_of_exn : exn -> str.
Variable dumps_context : context_result -> str.
Variable dumps_changes : dict (list str) -> str.
Variable check_output : list str -> subprocess_result.
Variable now : str.

Lemma clamp_in_range x : in_range (VFloat (clamp x)).
Proof.
  unfold clamp, py_min, py_max, hundred, zero.
  destruct x as [|[|]|q]; simpl; try (split; discriminate).
  destruct (Qle_bool 100 q) eqn:E1; simpl.
  - split; discriminate.
  - destruct (Qle_bool q 0) eqn:E2; simpl.
    + split; discriminate.
    + split.
      * apply Qnot_lt_le. intros Hlt.
        apply Qlt_le_weak, Qle_bool_iff in Hlt. congruence.
      * apply Qnot_lt_le. intros Hlt.
        apply Qlt_le_weak, Qle_bool_iff in Hlt. congruence.
Qed.

Lemma zero_in_range : in_range (VFloat zero).
Proof. simpl. split; discriminate. Qed.

Lemma field_setitem data key v data' :
  setitem data key v = Return data' -> field key data' = Some v.
Proof.
  destruct data; simpl; try discriminate. intros [= <-]. simpl.
  rewrite dict_get_set, str_eqb_refl. reflexivity.
Qed.

Lemma field_setitem_other data key key' v data' :
  key <> key' ->
  setitem data key v = Return data' -> field key' data' = field key' data.
Proof.
  intros Hne. destruct data; simpl; try discriminate. intros [= <-]. simpl.
  rewrite dict_get_set.
  destruct (str_eqb key key') eqn:E; [|reflexivity].
  apply str_eqb_true in E. contradiction.
Qed.

(** After the clamping step the field, when there is one, is in range. *)
Lemma clamp_score_in_range key data data' :
  clamp_score float_of_int float_of_str key data = Return data' ->
  forall v, field key data' = Some v -> in_range v.
Proof.
  unfold clamp_score. destruct (py_in key data) as [present|e] eqn:Ein;
    simpl; [|discriminate].
  destruct present.
  - destruct (bind (getitem data key) _) as [data1|e] eqn:Etry.
    + intros [= <-] v Hv.
      destruct (getitem data key) as [v0|]; simpl in Etry; [|discriminate].
      destruct (py_float float_of_int float_of_str v0) as [x|];
        simpl in Etry; [|discriminate].
      rewrite (field_setitem _ _ _ _ Etry) in Hv. injection Hv as <-.
      apply clamp_in_range.
    + intros Hset v Hv. rewrite (field_setitem _ _ _ _ Hset) in Hv.
      injection Hv as <-. apply zero_in_range.
  - intros [= <-] v Hv. destruct data; simpl in *; try discriminate.
    injection Ein as Ein. unfold dict_in in Ein. rewrite Hv in Ein.
    discriminate.
Qed.

Lemma unified_score_in_range top repo_path requirements_text dos_donts_text :
  forall v,
    field "score"
      (unified_analysis chain_invoke json_loads float_of_int float_of_str
         str_of_exn top repo_path requirements_text dos_donts_text)
    = Some v ->
    in_range v.
Proof.
  unfold unified_analysis. intros v.
  destruct (chain_invoke UnifiedPrompt _) as [content|e]; cbn [bind].
  - destruct (json_loads (clean content)) as [data|e]; cbn [bind].
    + destruct (clamp_score float_of_int float_of_str "score" data)
        as [data'|e] eqn:E.
      * apply (clamp_score_in_range _ _ _ E).
      * intros [= <-]. simpl. lia.
    + intros [= <-]. simpl. lia.
  - intros [= <-]. simpl. lia.
Qed.

Lemma feature_loss_try_in_range inputs repo_path commit_history b h r :
  feature_loss_try chain_invoke json_loads float_of_int float_of_str now
    inputs repo_path commit_history b h = Return r ->
  forall v, field "feature_loss_score" r = Some v -> in_range v.
Proof.
  unfold feature_loss_try.
  destruct (chain_invoke FeatureLossPrompt inputs) as [content|]; cbn [bind];
    [|discriminate].
  destruct (json_loads (clean content)) as [data|]; cbn [bind];
    [|discriminate].
  destruct (clamp_score float_of_int float_of_str "feature_loss_score" data)
    as [data'|] eqn:E; cbn [bind]; [|discriminate].
  intros Hset v Hv.
  assert (Hne : ("analysis_metadata" : str) <> "feature_loss_score")
    by (cbv; discriminate).
  rewrite (field_setitem_other _ _ _ _ _ Hne Hset) in Hv.
  exact (clamp_score_in_range _ _ _ E v Hv).
Qed.


End Scores.

(** ** The context summarizer *)

Section Summarizer.

Import ComplianceAgent Vocabulary.

Implicit Types (below : list str) (root : str) (st : walk_state)
  (file : file_node) (t : tree).

Lemma len_app {A} (a b : list A) : len (a ++ b) = (len a + len b)%Z.
Proof. unfold len. rewrite length_app. lia. Qed.

Lemma len_nonneg {A} (a : list A) : (0 <= len a)%Z.
Proof. unfold len. lia. Qed.

Lemma len_slice_to {A} (n : Z) (s : list A) :
  (0 <= n)%Z -> (len (slice_to n s) <= n)%Z.
Proof.
  intros Hn. unfold len, slice_to.
  destruct (Z.ltb_spec n 0) as [Hlt|_]; [lia|].
  rewrite length_take. lia.
Qed.

(** The loop emits whole entries: the first [k] of them, where the next one,
    if there is one, would not fit. *)
Lemma content_loop_spec lines : forall i content chars,
  chars = len content ->
  exists k,
    k <= length lines
    /\ content_loop lines i content chars
       = content ++ concat (take k (entries_from i lines))
    /\ ((chars <= 3000)%Z ->
        (len (content_loop lines i content chars) <= 3000)%Z)
    /\ (forall e, entries_from i lines !! k = Some e ->
        (len (content_loop lines i content chars) + len e > 3000)%Z).
Proof.
  induction lines as [|line rest IH]; intros i content chars Hchars.
  - exists 0. simpl. rewrite app_nil_r. repeat split; try lia.
    intros e He. discriminate.
  - simpl. destruct (Z.gtb_spec (chars + len (line_entry i line)) 3000)
      as [Hbig|Hfits].
    + exists 0. simpl. rewrite app_nil_r. repeat split; try lia.
      intros e [= <-]. lia.
    + destruct (IH (i + 1)%Z (content ++ line_entry i line)
                  (chars + len (line_entry i line))%Z) as (k & Hk & Heq & Hle & Hnext).
      { rewrite len_app. lia. }
      exists (S k). split; [simpl; lia|]. split; [|split].
      * rewrite Heq, <- app_assoc. reflexivity.
      * intros _. apply Hle. lia.
      * intros e He. apply Hnext. exact He.
Qed.

Lemma numbered_content_spec lines :
  (len (numbered_content lines) <= 3000)%Z
  /\ exists k,
       k <= length lines
       /\ numbered_content lines = concat (take k (entries_from 1 lines))
       /\ (forall e, entries_from 1 lines !! k = Some e ->
             (len (numbered_content lines) + len e > 3000)%Z).
Proof.
  unfold numbered_content.
  destruct (content_loop_spec lines 1%Z [] 0%Z eq_refl)
    as (k & Hk & Heq & Hle & Hnext).
  split; [apply Hle; lia|]. exists k. auto.
Qed.

(** One file: the events grow by at most one permitted opening. *)
Lemma file_step_permitted below root st file :
  below_kept below -> Forall permitted (snd st) ->
  Forall permitted (snd (file_step below root st file)).
Proof.
  intros Hbelow Hst. destruct st as [summary log]. unfold file_step.
  destruct (endswith_any skipped_suffixes (name file)) eqn:Esuffix;
    [exact Hst|].
  destruct (size file) as [sz|] eqn:Esize; [|exact Hst].
  destruct (Z.gtb_spec sz 102400) as [Hbig|Hsmall]; [exact Hst|].
  assert (Hlog : Forall permitted
                   (log ++ [Opened below file (path_join root (name file))])).
  { apply Forall_app. split; [exact Hst|]. constructor; [|constructor].
    simpl. split; [exact Hbelow|]. split; [exact Esuffix|].
    exists sz. split; [exact Esize|lia]. }
  destruct (lines file); exact Hlog.
Qed.

Lemma files_permitted below root files : forall st,
  below_kept below -> Forall permitted (snd st) ->
  Forall permitted (snd (fold_left (file_step below root) files st)).
Proof.
  induction files as [|file files IH]; intros st Hbelow Hst; [exact Hst|].
  simpl. apply IH; [exact Hbelow|].
  apply file_step_permitted; assumption.
Qed.

Lemma visit_permitted below root files st :
  below_kept below -> Forall permitted (snd st) ->
  Forall permitted (snd (visit below root files st)).
Proof.
  intros Hbelow Hst. destruct st as [summary log]. unfold visit.
  apply files_permitted; [exact Hbelow|]. simpl.
  apply Forall_app. split; [exact Hst|].
  constructor; [exact Hbelow|constructor].
Qed.

(** Induction on a tree, with the hypothesis for every sub-directory. *)
Lemma tree_induction (P : tree -> Prop) :
  (forall files dirs, Forall (fun d => P (snd d)) dirs -> P (Dir files dirs)) ->
  forall t, P t.
Proof.
  intros Hdir. fix IH 1. intros [files dirs]. apply Hdir.
  induction dirs as [|d dirs IHdirs]; constructor; [apply IH|exact IHdirs].
Qed.

Lemma walk_permitted t : forall below root st,
  below_kept below -> Forall permitted (snd st) ->
  Forall permitted (snd (walk below root t st)).
Proof.
  induction t as [files dirs IHdirs] using tree_induction.
  intros below root st Hbelow Hst. simpl.
  pose proof (visit_permitted below root files st Hbelow Hst) as Hvisit.
  generalize dependent (visit below root files st). clear Hst st.
  induction IHdirs as [|[d sub] dirs IHsub _ IHrest]; intros st Hst;
    [exact Hst|].
  destruct (ignored d) eqn:Ed; [apply IHrest; exact Hst|].
  apply IHrest. apply IHsub; [|exact Hst].
  apply Forall_app. split; [exact Hbelow|]. constructor; [exact Ed|constructor].
Qed.

Lemma emitted_whole_app text extra log :
  emitted_whole text log -> emitted_whole (text ++ extra) log.
Proof.
  intros H below file file_path lines Hin Hlines.
  destruct (H below file file_path lines Hin Hlines)
    as (before & content & after & -> & Hwhole).
  exists before, content, (after ++ extra).
  split; [|exact Hwhole]. rewrite <- !app_assoc. reflexivity.
Qed.

(** One file: when it is opened and read, its block goes to the end of the
    summary, with the numbered lines that [content_loop] has kept. *)
Lemma file_step_emitted below root st file :
  emitted_whole (fst st) (snd st) ->
  emitted_whole (fst (file_step below root st file))
    (snd (file_step below root st file)).
Proof.
  intros Hst. destruct st as [summary log]. cbn [fst snd] in Hst.
  unfold file_step.
  destruct (endswith_any skipped_suffixes (name file)); [exact Hst|].
  destruct (size file) as [sz|]; [|exact Hst].
  destruct (sz >? 102400)%Z; [exact Hst|].
  destruct (lines file) as [ls|] eqn:Els; cbn [fst snd].
  - intros below' file' file_path' lines' Hin Hlines.
    apply in_app_or in Hin as [Hin|[Hin|[]]].
    + change (summary ++ "--- " ++ name file ++ " ---" ++ [newline]
                ++ numbered_content ls ++ [newline])
        with (summary ++ file_block (name file) (numbered_content ls)).
      apply (emitted_whole_app summary _ log Hst _ _ _ _ Hin Hlines).
    + injection Hin as <- <- <-.
      assert (lines' = ls) as -> by congruence.
      exists summary, (numbered_content ls), [].
      split; [rewrite app_nil_r; reflexivity|].
      destruct (numbered_content_spec ls) as (Hle & k & Hk & Heq & Hnext).
      exists k. rewrite <- Heq. auto.
  - intros below' file' file_path' lines' Hin Hlines.
    apply in_app_or in Hin as [Hin|[Hin|[]]].
    + exact (Hst _ _ _ _ Hin Hlines).
    + injection Hin as <- <- <-. congruence.
Qed.

Lemma files_emitted below root files : forall st,
  emitted_whole (fst st) (snd st) ->
  emitted_whole (fst (fold_left (file_step below root) files st))
    (snd (fold_left (file_step below root) files st)).
Proof.
  induction files as [|file files IH]; intros st Hst; [exact Hst|].
  simpl. apply IH. apply file_step_emitted. exact Hst.
Qed.

Lemma visit_emitted below root files st :
  emitted_whole (fst st) (snd st) ->
  emitted_whole (fst (visit below root files st))
    (snd (visit below root files st)).
Proof.
  intros Hst. destruct st as [summary log]. cbn [fst snd] in Hst.
  unfold visit. apply files_emitted. cbn [fst snd].
  intros below' file' file_path' lines' Hin Hlines.
  apply in_app_or in Hin as [Hin|[Hin|[]]]; [|discriminate Hin].
  apply (emitted_whole_app summary _ log Hst _ _ _ _ Hin Hlines).
Qed.

Lemma walk_emitted t : forall below root st,
  emitted_whole (fst st) (snd st) ->
  emitted_whole (fst (walk below root t st)) (snd (walk below root t st)).
Proof.
  induction t as [files dirs IHdirs] using tree_induction.
  intros below root st Hst. simpl.
  pose proof (visit_emitted below root files st Hst) as Hvisit.
  generalize dependent (visit below root files st). clear Hst st.
  induction IHdirs as [|[d sub] dirs IHsub _ IHrest]; intros st Hst;
    [exact Hst|].
  destruct (ignored d); [apply IHrest; exact Hst|].
  apply IHrest. apply IHsub. exact Hst.
Qed.

Lemma slice_to_within {A} (n : Z) (l : list A) :
  (len l <= n)%Z -> slice_to n l = l.
Proof.
  intros H. unfold slice_to, len in *.
  destruct (Z.ltb_spec n 0) as [Hn|Hn]; [lia|].
  apply firstn_all2. lia.
Qed.

Lemma slice_to_holds {A} (n : Z) (before block after : list A) :
  (0 <= n)%Z -> (len before + len block <= n)%Z ->
  exists after',
    slice_to n (before ++ block ++ after) = before ++ block ++ after'.
Proof.
  intros Hn Hlen. unfold slice_to, len in *.
  destruct (Z.ltb_spec n 0) as [Hlt|_]; [lia|].
  exists (take (Z.to_nat n - length (before ++ block)) after).
  rewrite app_assoc, take_app_ge.
  - rewrite <- app_assoc. reflexivity.
  - rewrite length_app. lia.
Qed.


End Summarizer.

(** ** The commit history reader *)

Section SplitAndStrip.

Implicit Types (s a b : str) (sep : ascii) (parts : list str).

Lemma ascii_eqb_refl c : ascii_eqb c c = true.
Proof. apply ascii_eqb_true. reflexivity. Qed.

Lemma not_in_cons_sep sep c s :
  ~ In sep (c :: s) -> ascii_eqb c sep = false /\ ~ In sep s.
Proof.
  intros H. split.
  - apply ascii_eqb_false. intros ->. apply H. left. reflexivity.
  - intros Hin. apply H. right. exact Hin.
Qed.

Lemma split_no_sep sep s : ~ In sep s -> split sep s = [s].
Proof.
  induction s as [|c s IH]; intros H; [reflexivity|]. simpl.
  apply not_in_cons_sep in H as [Hc Hs]. rewrite Hc, IH by exact Hs.
  reflexivity.
Qed.

Lemma split_app_sep sep a b :
  ~ In sep a -> split sep (a ++ sep :: b) = a :: split sep b.
Proof.
  induction a as [|c a IH]; intros H; simpl.
  - rewrite ascii_eqb_refl. reflexivity.
  - apply not_in_cons_sep in H as [Hc Ha]. rewrite Hc, IH by exact Ha.
    reflexivity.
Qed.

Lemma join_cons_cons (sep : str) p q parts :
  join sep (p :: q :: parts) = p ++ sep ++ join sep (q :: parts).
Proof. reflexivity. Qed.

(** Splitting undoes joining when no part holds the separator. *)
Lemma split_join sep parts :
  parts <> [] -> Forall (fun p => ~ In sep p) parts ->
  split sep (join [sep] parts) = parts.
Proof.
  intros Hne Hparts. induction Hparts as [|p parts Hp Hparts IH];
    [contradiction|].
  destruct parts as [|q parts].
  - simpl. apply split_no_sep. exact Hp.
  - rewrite join_cons_cons.
    change (p ++ [sep] ++ join [sep] (q :: parts))
      with (p ++ sep :: join [sep] (q :: parts)).
    rewrite split_app_sep by exact Hp.
    rewrite IH by discriminate. reflexivity.
Qed.

Lemma split_max_zero sep s : split_max sep s 0 = [s].
Proof. destruct s; reflexivity. Qed.

Lemma split_max_app_sep sep a b n :
  ~ In sep a -> split_max sep (a ++ sep :: b) (S n) = a :: split_max sep b n.
Proof.
  induction a as [|c a IH]; intros H; simpl.
  - rewrite ascii_eqb_refl. reflexivity.
  - apply not_in_cons_sep in H as [Hc Ha]. rewrite Hc, IH by exact Ha.
    reflexivity.
Qed.

Lemma lstrip_id s :
  (forall c, head s = Some c -> isspace c = false) -> lstrip s = s.
Proof.
  destruct s as [|c s]; intros H; [reflexivity|]. simpl.
  rewrite (H c eq_refl). reflexivity.
Qed.

Lemma rstrip_id s :
  (forall c, last s = Some c -> isspace c = false) -> rstrip s = s.
Proof.
  intros H. unfold rstrip. destruct (last s) as [c|] eqn:E.
  - apply last_Some in E as [s' ->]. rewrite rev_app_distr. simpl.
    rewrite (H c eq_refl). simpl. rewrite rev_involutive. reflexivity.
  - apply last_None in E as ->. reflexivity.
Qed.

Lemma strip_id s :
  (forall c, head s = Some c -> isspace c = false) ->
  (forall c, last s = Some c -> isspace c = false) ->
  strip s = s.
Proof.
  intros Hhead Hlast. unfold strip. rewrite (lstrip_id s Hhead).
  apply rstrip_id. exact Hlast.
Qed.

End SplitAndStrip.

Section LogReader.

Import CommitAnalyzer Vocabulary.

Variable check_output : list str -> subprocess_result.
Variable repo_path : str.

Implicit Types (c : commit) (commits : list commit).

Lemma format_commit_eq c :
  format_commit c
  = hash c ++ pipe :: (message c ++ pipe :: (date c ++ pipe :: author c)).
Proof. reflexivity. Qed.

Lemma format_commit_split c :
  well_formed_commit c ->
  split_max pipe (format_commit c) 3
  = [hash c; message c; date c; author c].
Proof.
  intros (([Hh _] & _) & Hm & Hd). rewrite format_commit_eq.
  rewrite !split_max_app_sep by assumption. rewrite split_max_zero.
  reflexivity.
Qed.

Lemma format_commit_truthy c : truthy (format_commit c) = true.
Proof. rewrite format_commit_eq. destruct (hash c); reflexivity. Qed.

Lemma format_commit_one_line c :
  printed_commit c -> ~ In newline (format_commit c).
Proof.
  intros ([_ Hh] & _ & Hm & Hd & Ha & _). rewrite format_commit_eq.
  rewrite !in_app_iff. simpl. rewrite !in_app_iff. simpl.
  rewrite !in_app_iff. simpl.
  assert (pipe <> newline) by discriminate. tauto.
Qed.

Lemma format_commit_head c a :
  printed_commit c -> head (format_commit c) = Some a ->
  isspace a = false.
Proof.
  intros (_ & Hh & _) Ha. rewrite format_commit_eq in Ha.
  destruct (hash c) as [|x h]; simpl in Ha.
  - assert (a = pipe) as -> by congruence. reflexivity.
  - assert (a = x) as -> by congruence. inversion Hh; assumption.
Qed.

Lemma format_commit_last c a :
  printed_commit c -> last (format_commit c) = Some a ->
  isspace a = false.
Proof.
  intros (_ & _ & _ & _ & _ & Hauthor & _) Ha.
  assert (Heq : format_commit c
                = (hash c ++ pipe :: message c ++ pipe :: date c)
                  ++ pipe :: author c).
  { rewrite format_commit_eq. repeat (rewrite <- app_assoc; simpl).
    reflexivity. }
  rewrite Heq, last_app_cons, last_cons in Ha.
  destruct (last (author c)) as [x|] eqn:E.
  - assert (a = x) as -> by congruence. apply Hauthor. reflexivity.
  - assert (a = pipe) as -> by congruence. reflexivity.
Qed.

Lemma log_output_cons c commits :
  log_output (c :: commits)
  = format_commit c
    ++ match commits with
       | [] => []
       | _ :: _ => newline :: log_output commits
       end.
Proof.
  unfold log_output. destruct commits; simpl; [|reflexivity].
  rewrite app_nil_r. reflexivity.
Qed.

Lemma log_output_last commits : forall a,
  Forall printed_commit commits ->
  last (log_output commits) = Some a -> isspace a = false.
Proof.
  induction commits as [|c commits IH]; intros a Hwf Ha; [discriminate|].
  inversion Hwf as [|? ? Hc Hrest]; subst.
  rewrite log_output_cons in Ha. destruct commits as [|c' commits].
  - rewrite app_nil_r in Ha. exact (format_commit_last c a Hc Ha).
  - rewrite last_app_cons, last_cons in Ha.
    destruct (last (log_output (c' :: commits))) as [y|] eqn:E.
    + assert (a = y) as -> by congruence.
      apply IH; [exact Hrest|reflexivity].
    + apply last_None in E. rewrite log_output_cons, format_commit_eq in E.
      destruct (hash c'); discriminate.
Qed.

(** From a log that git printed, [strip] takes nothing away. *)
Lemma log_output_strip commits :
  Forall printed_commit commits ->
  strip (log_output commits) = log_output commits.
Proof.
  intros Hwf. apply strip_id.
  - intros a Ha. destruct Hwf as [|c commits Hc _]; [discriminate|].
    rewrite log_output_cons, head_app in Ha.
    destruct (head (format_commit c)) as [x|] eqn:E.
    + assert (a = x) as -> by congruence.
      exact (format_commit_head c x Hc E).
    + apply head_None in E. rewrite format_commit_eq in E.
      destruct (hash c); discriminate.
  - intros a. apply log_output_last. exact Hwf.
Qed.

Lemma log_output_lines commits :
  commits <> [] -> Forall printed_commit commits ->
  split newline (log_output commits) = map format_commit commits.
Proof.
  intros Hne Hwf. unfold log_output. apply split_join.
  - destruct commits; [contradiction|discriminate].
  - apply Forall_fmap. eapply Forall_impl; [exact Hwf|].
    intros c Hc. apply format_commit_one_line. exact Hc.
Qed.

(** The loop turns every printed commit back into the commit. *)
Lemma commits_loop_formatted commits : forall acc,
  Forall well_formed_commit commits ->
  commits_loop (map format_commit commits) acc = Return (acc ++ commits).
Proof.
  induction commits as [|c commits IH]; intros acc Hwf; simpl.
  - rewrite app_nil_r. reflexivity.
  - inversion Hwf as [|? ? Hc Hrest]; subst.
    rewrite format_commit_truthy, (format_commit_split c Hc).
    rewrite IH by exact Hrest. rewrite <- app_assoc. destruct c. reflexivity.
Qed.

(** The loop yields at most one commit for each line. *)
Lemma commits_loop_length lines : forall acc result,
  commits_loop lines acc = Return result ->
  length result <= length acc + length lines.
Proof.
  induction lines as [|line lines IH]; intros acc result H; simpl in H.
  - injection H as <-. lia.
  - destruct (truthy line).
    + destruct (split_max pipe line 3) as [|h [|m [|d [|a [|]]]]];
        try discriminate.
      apply IH in H. rewrite length_app in H. simpl in *. lia.
    + apply IH in H. simpl. lia.
Qed.

End LogReader.

(** ** The stores of the scenario *)

(** Twelve audits of one repository from a missing file: ten records are
    kept. *)
Lemma C4_on_scenario :
  history_manager.get_repo_history Scenario.app_url Scenario.fresh = []
  /\ length (history_manager.get_repo_history Scenario.app_url
              (history_manager.run_saves Scenario.audits Scenario.fresh))
     = 10.
Proof.
  split; [reflexivity|].
  rewrite (proj1 (proj2 (C4_history_capped_newest_first Scenario.fresh
                           Scenario.app_url Scenario.audits eq_refl))).
  reflexivity.
Defined.

(** An audit of one repository leaves the record of the other. *)
Lemma C10_on_scenario :
  length (history_manager.get_repo_history Scenario.lib_url
            (history_manager.run_save
               (history_manager.run_saves Scenario.audits Scenario.fresh)
               (Scenario.audit Scenario.app_url 23)))
  = 1.
Proof.
  unfold history_manager.run_save.
  rewrite (proj2 (proj1 (C10_save_frame_and_clear_no_write
                           (history_manager.run_saves Scenario.audits
                              Scenario.fresh)
                           _ Scenario.app_url _ _ _ _) Scenario.lib_url
                    ltac:(vm_compute; discriminate))).
  vm_compute. reflexivity.
Defined.

(** ** The scenario, evaluated *)

Section TimelineStep.

Import CommitAnalyzer.

Variable check_output : list str -> subprocess_result.
Variable repo_path : str.

(** What the timeline builder does for a pair of commits: it emits an entry
    exactly when the diff of the pair has a changed line in a recognized
    file, removed or added. *)
Lemma timeline_step_emits newer older :
  timeline_step check_output repo_path newer older = []
  <-> get_full_diff_between_commits check_output repo_path
        (hash older) (hash newer) = [].
Proof.
  unfold timeline_step.
  pose proof (full_diff_keys check_output repo_path (hash older) (hash newer))
    as Hkeys.
  destruct (get_full_diff_between_commits _ _ _ _) as [|[f ls] rest].
  - simpl. tauto.
  - inversion Hkeys as [|? ? Hf _]; subst. simpl in Hf.
    unfold code_deletions_of. simpl. rewrite Hf. simpl.
    split; discriminate.
Qed.

End TimelineStep.

(** The summary of the working tree of the scenario: the picture and the
    large file are not opened, and [.git] is not walked. *)
Lemma summary_on_scenario :
  snd (ComplianceAgent._get_code_summary (Some Scenario.working_tree)
         Scenario.repo)
  = [ ComplianceAgent.Walked [] "/tmp/ws";
      ComplianceAgent.Opened [] Scenario.main_py "/tmp/ws/main.py";
      ComplianceAgent.Walked ["src" : str] "/tmp/ws/src";
      ComplianceAgent.Opened ["src" : str] Scenario.util_py
        "/tmp/ws/src/util.py" ]
  /\ ComplianceAgent.numbered_content
       [ "x = 1" ++ Scenario.nl; "y" : str ]
     = "1: x = 1" ++ Scenario.nl ++ "2: y".
Proof. split; reflexivity. Qed.

(** The score 150 of the service comes back as 100.0, and the prose answer
    as the result with score 0 and no feature changes. *)
Lemma scores_on_scenario :
  ComplianceAgent.unified_analysis Scenario.chain_invoke Scenario.json_loads
    Scenario.float_of_int Scenario.float_of_str Scenario.str_of_exn
    (Some Scenario.working_tree) Scenario.repo "The tool prints its name."
    []
  = VDict [ ("score" : str, VFloat ComplianceAgent.hundred);
            ("issues" : str, VList []) ]
  /\ ComplianceAgent.analyze_feature_loss_with_history Scenario.chain_invoke
       Scenario.json_loads Scenario.float_of_int Scenario.float_of_str
       Scenario.str_of_exn (fun _ => []) (fun _ => []) Scenario.check_output
       "2024-01-04 09:00:00" (Some Scenario.working_tree) Scenario.repo
       "The tool prints its name." [] None None
     = Return (ComplianceAgent.feature_loss_failed Scenario.str_of_exn
                 JSONDecodeError).
Proof. split; vm_compute; reflexivity. Qed.

(** * Further properties of the sources *)

(** ** The dictionary of changes *)

Section ChangesDictionary.

Import CommitAnalyzer Vocabulary.

Implicit Types (f l line : str) (lines : list str)
  (changes : dict (list str)).

Lemma dict_keys_set_present {V} (k : str) (v : V) (d : dict V) :
  dict_get k d <> None -> dict_keys (dict_set k v d) = dict_keys d.
Proof.
  unfold dict_keys. induction d as [|[k0 v0] d IH]; simpl; [congruence|].
  destruct (str_eqb k0 k) eqn:E; simpl.
  - apply str_eqb_true in E as ->. reflexivity.
  - intros H. rewrite IH by exact H. reflexivity.
Qed.

Lemma dict_keys_set_new {V} (k : str) (v : V) (d : dict V) :
  dict_get k d = None -> dict_keys (dict_set k v d) = dict_keys d ++ [k].
Proof.
  unfold dict_keys. induction d as [|[k0 v0] d IH]; simpl; [reflexivity|].
  destruct (str_eqb k0 k) eqn:E; simpl; [discriminate|].
  intros H. rewrite IH by exact H. reflexivity.
Qed.

Lemma keys_record_line_eq f l changes :
  dict_keys (record_line f l changes)
  = if dict_in f changes then dict_keys changes else dict_keys changes ++ [f].
Proof.
  unfold record_line, dict_in.
  destruct (dict_get f changes) as [old|] eqn:E; cbn match.
  - apply dict_keys_set_present. congruence.
  - rewrite dict_keys_set_present.
    + apply dict_keys_set_new. exact E.
    + rewrite (dict_get_set f f), str_eqb_refl. discriminate.
Qed.

Lemma diff_loop_nodup lines : forall st,
  List.NoDup (dict_keys (snd st)) ->
  List.NoDup (dict_keys (snd (diff_loop lines st))).
Proof.
  induction lines as [|line lines IH]; intros st H; [exact H|].
  rewrite diff_loop_cons. apply IH.
  destruct (diff_step_changes st line) as [-> | (f0 & _ & _ & _ & ->)];
    [exact H|].
  rewrite keys_record_line_eq. unfold dict_in.
  destruct (dict_get f0 (snd st)) eqn:E; [exact H|].
  apply NoDup_ListNoDup, NoDup_app. apply NoDup_ListNoDup in H.
  split; [exact H|]. split; [|apply NoDup_singleton].
  intros x Hx Hx'. apply list_elem_of_singleton in Hx' as ->.
  apply list_elem_of_In, dict_get_in_keys in Hx. congruence.
Qed.

Lemma diff_loop_sublist lines : forall before st,
  (forall f, stored f (snd st) `sublist_of` before) ->
  forall f, stored f (snd (diff_loop lines st)) `sublist_of` before ++ lines.
Proof.
  induction lines as [|line lines IH]; intros before st H f.
  - rewrite app_nil_r. apply H.
  - rewrite diff_loop_cons.
    change (before ++ line :: lines) with (before ++ [line] ++ lines).
    rewrite app_assoc. apply IH. clear f. intros f.
    destruct (diff_step_changes st line) as [-> | (f0 & _ & _ & _ & ->)].
    + apply sublist_inserts_r, H.
    + rewrite stored_record_line. destruct (str_eqb f0 f) eqn:E.
      * apply str_eqb_true in E as ->. apply sublist_app; [apply H|reflexivity].
      * apply sublist_inserts_r, H.
Qed.

Lemma dict_keys_deletions changes :
  dict_keys (deletions_of changes) = dict_keys changes.
Proof.
  unfold dict_keys, deletions_of. rewrite List.map_map.
  apply List.map_ext. intros [fp ls]. reflexivity.
Qed.

Lemma dict_values_deletions changes :
  dict_values (deletions_of changes)
  = map (fun ls => map (slice_from 1) (List.filter (startswith "-") ls))
      (dict_values changes).
Proof.
  unfold dict_values, deletions_of. rewrite !List.map_map.
  apply List.map_ext. intros [fp ls]. reflexivity.
Qed.

Lemma stored_deletions f changes :
  stored f (deletions_of changes)
  = map (slice_from 1) (List.filter (startswith "-") (stored f changes)).
Proof.
  unfold stored, deletions_of.
  induction changes as [|[k ls] changes IH]; simpl; [reflexivity|].
  destruct (str_eqb k f); [reflexivity|exact IH].
Qed.

Lemma minus_line l x :
  startswith "-" x = true /\ slice_from 1 x = l <-> x = "-" ++ l.
Proof.
  split.
  - intros [Hx <-]. apply startswith_inv in Hx as [r ->]. reflexivity.
  - intros ->. split; reflexivity.
Qed.

Lemma in_minus_lines l ls :
  In l (map (slice_from 1) (List.filter (startswith "-") ls))
  <-> In ("-" ++ l) ls.
Proof.
  rewrite in_map_iff. split.
  - intros (x & Hl & Hx). apply filter_In in Hx as [Hin Hx].
    assert (x = "-" ++ l) as <- by (apply minus_line; auto). exact Hin.
  - intros Hin. exists ("-" ++ l). split; [reflexivity|].
    apply filter_In. split; [exact Hin|reflexivity].
Qed.

Lemma sum_lengths_from (vs : list (list str)) : forall a,
  fold_left (fun acc ls => (acc + len ls)%Z) vs a
  = (a + len (concat vs))%Z.
Proof.
  induction vs as [|v vs IH]; intros a; simpl.
  - unfold len. simpl. lia.
  - rewrite IH, len_app. lia.
Qed.

Lemma len_concat_minus (vs : list (list str)) :
  len (concat
         (map (fun ls => map (slice_from 1)
                           (List.filter (startswith "-") ls)) vs))
  = len (List.filter (startswith "-") (concat vs)).
Proof.
  induction vs as [|v vs IH]; [reflexivity|]. cbn [List.map concat].
  rewrite List.filter_app, !len_app, IH. unfold len at 1 3.
  rewrite length_map. reflexivity.
Qed.

Lemma code_deletions_all (deletions : dict (list str)) :
  Forall (fun f => _is_code_file f = true) (dict_keys deletions) ->
  code_deletions_of deletions = deletions.
Proof.
  unfold code_deletions_of, dict_keys.
  induction deletions as [|[k ls] deletions IH]; intros H; [reflexivity|].
  inversion H as [|? ? Hk Hrest]; subst. simpl in *. rewrite Hk.
  rewrite IH by exact Hrest. reflexivity.
Qed.

Section WithWorkspace.

Variable check_output : list str -> subprocess_result.
Variable repo_path : str.

Lemma diff_paths_nodup old_commit new_commit :
  List.NoDup
    (dict_keys (get_full_diff_between_commits check_output repo_path
                  old_commit new_commit)).
Proof.
  unfold get_full_diff_between_commits.
  destruct (check_output _); [|constructor].
  unfold parse_diff. apply diff_loop_nodup. constructor.
Qed.

(** No file is listed twice: the paths of the dictionary returned by
    [get_full_diff_between_commits] are pairwise distinct, however often a
    header is repeated in the diff. *)
Theorem diff_paths_distinct old_commit new_commit :
  List.NoDup
    (dict_keys (get_full_diff_between_commits check_output repo_path
                  old_commit new_commit)).
Proof.
  unfold get_full_diff_between_commits.
  destruct (check_output _); [|constructor].
  unfold parse_diff. apply diff_loop_nodup. constructor.
Qed.

(** The lines recorded for a file are lines of the diff in the order of
    the diff, each as often as it was recorded: they form a subsequence of
    the lines of the text that git printed. *)
Theorem diff_lines_in_order old_commit new_commit result f :
  check_output (diff_cmd repo_path old_commit new_commit) = Completed result ->
  stored f (get_full_diff_between_commits check_output repo_path
              old_commit new_commit)
  `sublist_of` split newline result.
Proof.
  intros H. rewrite (full_diff_completed _ _ _ _ _ H). unfold parse_diff.
  apply (diff_loop_sublist (split newline result) [] (None, [])).
  intros f'. reflexivity.
Qed.

(** The dictionary of deletions built from a dictionary of changes has the
    same paths, also those of files with added lines only, and holds for
    each path the recorded lines that start with [-], without this first
    character: [l] is listed for a path exactly when [-l] was recorded for
    it. *)
Theorem deletions_strip_marker (changes : dict (list str)) :
  dict_keys (deletions_of changes) = dict_keys changes
  /\ forall f l,
       In l (stored f (deletions_of changes))
       <-> In ("-" ++ l) (stored f changes).
Proof.
  split; [apply dict_keys_deletions|]. intros f l.
  rewrite stored_deletions. apply in_minus_lines.
Qed.

(** The entry of the timeline for a pair of commits: there is one exactly
    when the dictionary of changes of the pair is not empty; it names the
    newer commit with its hash cut to eight characters, lists all paths of
    the dictionary, and counts the recorded lines that start with [-]. *)
Theorem timeline_entry_shape newer older :
  let changes :=
    get_full_diff_between_commits check_output repo_path
      (hash older) (hash newer) in
  timeline_step check_output repo_path newer older
  = match changes with
    | [] => []
    | _ :: _ =>
        [ {| commit_ := short_commit newer;
             files_modified := dict_keys changes;
             total_lines_deleted := len (removed_lines changes) |} ]
    end.
Proof.
  intros changes. unfold timeline_step. fold changes.
  pose proof (full_diff_keys check_output repo_path (hash older) (hash newer))
    as Hkeys. fold changes in Hkeys.
  rewrite code_deletions_all by (rewrite dict_keys_deletions; exact Hkeys).
  rewrite dict_keys_deletions, dict_values_deletions.
  unfold sum_lengths. rewrite sum_lengths_from, len_concat_minus.
  clear Hkeys. clearbody changes.
  destruct changes as [|[k ls] rest]; reflexivity.
Qed.

End WithWorkspace.

End ChangesDictionary.

(** The diff of [h1] and [h2] in the three-commit workspace. *)
Lemma diff_lines_in_order_on_scenario :
  Vocabulary.stored "a.py"
    (CommitAnalyzer.get_full_diff_between_commits Scenario.check_output
       Scenario.repo Scenario.h1 Scenario.h2)
  `sublist_of` split newline Scenario.diff_1_2.
Proof.
  exact (diff_lines_in_order Scenario.check_output Scenario.repo Scenario.h1
           Scenario.h2 Scenario.diff_1_2 "a.py" eq_refl).
Defined.

(** ** The log and the timeline *)

Section LogAndTimeline.

Import CommitAnalyzer Vocabulary.

Variable check_output : list str -> subprocess_result.
Variable repo_path : str.

Implicit Types (commits : list commit) (lines : list str).

Lemma count_char_cons sep c s :
  count_char sep (c :: s)
  = if ascii_eqb c sep then S (count_char sep s) else count_char sep s.
Proof.
  unfold count_char. simpl.
  destruct (ascii_eqb sep c) eqn:E1; destruct (ascii_eqb c sep) eqn:E2;
    try reflexivity.
  - apply ascii_eqb_true in E1. apply ascii_eqb_false in E2. congruence.
  - apply ascii_eqb_true in E2. apply ascii_eqb_false in E1. congruence.
Qed.

(** [split] with a bound yields one part more than separators used. *)
Lemma length_split_max sep s : forall n,
  length (split_max sep s n) = S (Nat.min (count_char sep s) n).
Proof.
  induction s as [|c s IH]; intros [|n]; try reflexivity.
  - simpl. rewrite Nat.min_0_r. reflexivity.
  - cbn [split_max]. rewrite count_char_cons.
    destruct (ascii_eqb c sep).
    + simpl. rewrite IH. reflexivity.
    + specialize (IH (S n)).
      destruct (split_max sep s (S n)) as [|w ws]; [discriminate IH|exact IH].
Qed.

Lemma readable_split line :
  3 <= count_char pipe line ->
  exists h m d a, split_max pipe line 3 = [h; m; d; a].
Proof.
  intros H. pose proof (length_split_max pipe line 3) as Hlen.
  rewrite Nat.min_r in Hlen by exact H.
  destruct (split_max pipe line 3) as [|h [|m [|d [|a [|]]]]];
    try discriminate.
  eauto.
Qed.

Lemma unreadable_split line :
  count_char pipe line < 3 -> length (split_max pipe line 3) <> 4.
Proof. intros H. rewrite length_split_max. lia. Qed.

Lemma commits_loop_readable lines : forall acc,
  Forall readable_line lines ->
  exists commits,
    commits_loop lines acc = Return (acc ++ commits)
    /\ length commits = length (List.filter truthy lines).
Proof.
  induction lines as [|line lines IH]; intros acc H.
  - exists []. rewrite app_nil_r. split; reflexivity.
  - inversion H as [|? ? Hline Hrest]; subst. simpl.
    destruct (truthy line) eqn:Et.
    + destruct Hline as [Hline|Hline]; [congruence|].
      destruct (readable_split line Hline) as (h & m & d & a & ->).
      destruct (IH (acc ++ [ {| hash := h; message := m; date := d;
                                author := a |} ]) Hrest)
        as (commits & -> & Hlen).
      exists ({| hash := h; message := m; date := d; author := a |}
              :: commits).
      rewrite <- app_assoc. split; [reflexivity|]. simpl. lia.
    + apply IH. exact Hrest.
Qed.

Lemma commits_loop_unreadable lines : forall acc,
  Exists unreadable_line lines -> commits_loop lines acc = Raise ValueError.
Proof.
  induction lines as [|line lines IH]; intros acc H;
    [inversion H|].
  simpl. destruct (truthy line) eqn:Et.
  - destruct (Nat.lt_ge_cases (count_char pipe line) 3) as [Hlt|Hge].
    + pose proof (unreadable_split line Hlt) as Hlen.
      destruct (split_max pipe line 3) as [|h [|m [|d [|a [|]]]]];
        try reflexivity.
      simpl in Hlen. contradiction.
    + destruct (readable_split line Hge) as (h & m & d & a & ->).
      apply IH. inversion H as [? ? [_ Hbad]|? ? Hrest]; subst;
        [lia|exact Hrest].
  - apply IH. inversion H as [? ? [Hbad _]|? ? Hrest]; subst;
      [congruence|exact Hrest].
Qed.

(** When git succeeds, [get_commit_history] returns exactly when every
    line of the stripped output that is not empty has at least three [|],
    and then it returns one commit for each such line; a shorter line makes
    it raise [ValueError], which it does not catch. *)
Theorem commit_history_reads_or_raises max_commits stdout :
  check_output (log_cmd repo_path max_commits) = Completed stdout ->
  (Forall readable_line (split newline (strip stdout)) ->
     exists commits,
       get_commit_history check_output repo_path max_commits = Return commits
       /\ length commits
          = length (List.filter truthy (split newline (strip stdout))))
  /\ (Exists unreadable_line (split newline (strip stdout)) ->
        get_commit_history check_output repo_path max_commits
        = Raise ValueError).
Proof.
  intros Hout. unfold get_commit_history. rewrite Hout. split.
  - intros H. apply (commits_loop_readable _ [] H).
  - apply commits_loop_unreadable.
Qed.

Lemma timeline_step_at_most_one newer older :
  timeline_step check_output repo_path newer older = []
  \/ exists e,
       timeline_step check_output repo_path newer older = [e]
       /\ commit_ e = short_commit newer.
Proof.
  unfold timeline_step. destruct (deletions_of _) as [|kv deletions];
    [left; reflexivity|].
  destruct (code_deletions_of _); [left; reflexivity|].
  right. eexists. split; reflexivity.
Qed.

Lemma timeline_loop_cons newer older rest acc :
  timeline_loop check_output repo_path (newer :: older :: rest) acc
  = timeline_loop check_output repo_path (older :: rest)
      (acc ++ timeline_step check_output repo_path newer older).
Proof. reflexivity. Qed.

(** The entries that the loop adds name commits of the list other than the
    last, in the order of the list. *)
Lemma timeline_loop_picks commits : forall acc,
  exists picked,
    timeline_loop check_output repo_path commits acc = acc ++ picked
    /\ map commit_ picked `sublist_of` map short_commit (removelast commits).
Proof.
  induction commits as [|newer commits IH]; intros acc.
  - exists []. rewrite app_nil_r. split; [reflexivity|constructor].
  - destruct commits as [|older rest].
    + exists []. rewrite app_nil_r. split; [reflexivity|constructor].
    + destruct (IH (acc ++ timeline_step check_output repo_path newer older))
        as (picked & Heq & Hsub).
      exists (timeline_step check_output repo_path newer older ++ picked).
      split.
      * rewrite timeline_loop_cons, Heq, <- app_assoc. reflexivity.
      * change (removelast (newer :: older :: rest))
          with (newer :: removelast (older :: rest)).
        destruct (timeline_step_at_most_one newer older)
          as [-> | (e & -> & He)].
        -- simpl. apply sublist_cons. exact Hsub.
        -- simpl. rewrite He. apply sublist_skip. exact Hsub.
Qed.

Lemma length_removelast {A} (l : list A) :
  length (removelast l) = pred (length l).
Proof. rewrite removelast_firstn_len, length_take. lia. Qed.

(** The outcomes of [get_feature_loss_context]: a failing git command and a
    log of fewer than two commits give the error result; an exception of
    the log reader is passed on; otherwise the context counts the commits
    read, its [commits_with_deletions] is the length of its timeline, which
    is less than the number of commits, and the entries of the timeline
    name commits of the log other than the oldest, in the order of the
    log. *)
Theorem feature_loss_context_outcomes max_commits :
  let history := get_commit_history check_output repo_path max_commits in
  let context := get_feature_loss_context check_output repo_path max_commits in
  (check_output (log_cmd repo_path max_commits) = CalledProcessError ->
     context = Return NotEnoughCommits)
  /\ (forall e, history = Raise e -> context = Raise e)
  /\ (forall commits, history = Return commits -> (len commits < 2)%Z ->
        context = Return NotEnoughCommits)
  /\ (forall commits, history = Return commits -> (2 <= len commits)%Z ->
        exists c,
          context = Return (Context c)
          /\ total_commits_analyzed c = len commits
          /\ commits_with_deletions c = len (deletion_timeline c)
          /\ (commits_with_deletions c <= len commits - 1)%Z
          /\ map commit_ (deletion_timeline c)
             `sublist_of` map short_commit (removelast commits)
          /\ oldest_commit c = hash_and_date <$> last commits
          /\ newest_commit c = hash_and_date <$> head commits).
Proof.
  intros history context. subst history context.
  unfold get_feature_loss_context. split; [|split; [|split]].
  - intros H. unfold get_commit_history. rewrite H. reflexivity.
  - intros e ->. reflexivity.
  - intros commits -> Hlen. cbn [bind].
    apply Z.ltb_lt in Hlen. rewrite Hlen. reflexivity.
  - intros commits -> Hlen. cbn [bind].
    pose proof Hlen as Hlt. apply Z.ltb_ge in Hlt. rewrite Hlt.
    destruct (timeline_loop_picks commits []) as (picked & Heq & Hsub).
    eexists. split; [reflexivity|]. cbn [total_commits_analyzed
      commits_with_deletions deletion_timeline oldest_commit newest_commit].
    rewrite Heq. cbn [app].
    repeat split; try reflexivity; [|exact Hsub].
    apply sublist_length in Hsub.
    rewrite !length_map, length_removelast in Hsub. unfold len in *. lia.
Qed.

End LogAndTimeline.

(** The log of the three-commit workspace is read, and its context has a
    timeline of at most two entries. *)
Lemma scenario_lines_readable :
  Forall Vocabulary.readable_line (split newline (strip Scenario.log_text)).
Proof.
  assert (E : split newline (strip Scenario.log_text)
              = map Vocabulary.format_commit
                  [Scenario.c3; Scenario.c2; Scenario.c1])
    by (vm_compute; reflexivity).
  rewrite E. repeat (apply List.Forall_cons; [right; vm_compute; lia|]).
  apply List.Forall_nil.
Qed.

Lemma commit_history_on_scenario :
  exists commits,
    CommitAnalyzer.get_commit_history Scenario.check_output Scenario.repo 20
    = Return commits
    /\ length commits = 3.
Proof.
  exact (proj1 (commit_history_reads_or_raises Scenario.check_output
                  Scenario.repo 20 Scenario.log_text eq_refl)
           scenario_lines_readable).
Defined.

Lemma feature_loss_context_on_scenario :
  exists c,
    CommitAnalyzer.get_feature_loss_context Scenario.check_output
      Scenario.repo 20
    = Return (CommitAnalyzer.Context c)
    /\ (CommitAnalyzer.commits_with_deletions c <= 2)%Z.
Proof.
  destruct (proj2 (proj2 (proj2 (feature_loss_context_outcomes
              Scenario.check_output Scenario.repo 20)))
              [Scenario.c3; Scenario.c2; Scenario.c1] eq_refl
              ltac:(vm_compute; discriminate))
    as (c & Hc & _ & _ & Hle & _).
  exists c. split; [exact Hc|exact Hle].
Defined.

(** ** The commit history reader and the call of git *)

Section ReaderAndTool.

Import CommitAnalyzer Vocabulary.

Implicit Types (c : commit) (commits : list commit) (lines : list str).

Lemma count_char_app sep (a b : str) :
  count_char sep (a ++ b) = count_char sep a + count_char sep b.
Proof. unfold count_char. rewrite List.filter_app, length_app. reflexivity. Qed.

Lemma count_char_sep sep (s : str) :
  count_char sep (sep :: s) = S (count_char sep s).
Proof. rewrite count_char_cons, ascii_eqb_refl. reflexivity. Qed.

(** The hash of a printed commit is read back, whatever the subject. *)
Lemma format_commit_split_hash c :
  printed_commit c ->
  exists m d a, split_max pipe (format_commit c) 3 = [hash c; m; d; a].
Proof.
  intros ([Hh _] & _). rewrite format_commit_eq.
  rewrite split_max_app_sep by exact Hh.
  pose proof (length_split_max pipe
                (message c ++ pipe :: (date c ++ pipe :: author c)) 2) as Hlen.
  rewrite count_char_app, count_char_sep, count_char_app, count_char_sep
    in Hlen.
  rewrite Nat.min_r in Hlen by lia.
  destruct (split_max pipe _ 2) as [|m [|d [|a [|]]]]; try discriminate.
  eauto.
Qed.

Lemma commits_loop_printed commits : forall acc,
  Forall printed_commit commits ->
  exists result,
    commits_loop (map format_commit commits) acc = Return (acc ++ result)
    /\ map hash result = map hash commits.
Proof.
  induction commits as [|c commits IH]; intros acc Hp.
  - exists []. rewrite app_nil_r. split; reflexivity.
  - inversion Hp as [|? ? Hc Hrest]; subst. cbn [List.map commits_loop].
    rewrite format_commit_truthy.
    destruct (format_commit_split_hash c Hc) as (m & d & a & ->).
    destruct (IH (acc ++ [ {| hash := hash c; message := m; date := d;
                              author := a |} ]) Hrest)
      as (result & -> & Hhash).
    exists ({| hash := hash c; message := m; date := d; author := a |}
            :: result).
    rewrite <- app_assoc. split; [reflexivity|].
    cbn [List.map hash]. rewrite Hhash. reflexivity.
Qed.

(** The loop yields at most one commit for each line that is not empty. *)
Lemma commits_loop_lines lines : forall acc result,
  commits_loop lines acc = Return result ->
  length result <= length acc + length (List.filter truthy lines).
Proof.
  induction lines as [|line lines IH]; intros acc result H; simpl in H.
  - injection H as <-. simpl. lia.
  - simpl. destruct (truthy line).
    + destruct (split_max pipe line 3) as [|h [|m [|d [|a [|]]]]];
        try discriminate.
      apply IH in H. rewrite length_app in H. simpl in *. lia.
    + apply IH in H. lia.
Qed.

Lemma split_first (s t : str) :
  exists w ws w' ws',
    split newline s = w :: ws
    /\ split newline (s ++ t) = w' :: ws'
    /\ (truthy w = true -> truthy w' = true)
    /\ length (List.filter truthy ws) <= length (List.filter truthy ws').
Proof.
  induction s as [|c s (w & ws & w' & ws' & Hs & Hst & Hw & Hws)].
  - cbn [app split]. exists [], [].
    destruct (split newline t) as [|w' ws'] eqn:E.
    + destruct t as [|x t]; [discriminate|]. cbn [split] in E.
      destruct (ascii_eqb x newline); [discriminate|].
      destruct (split newline t); discriminate.
    + exists w', ws'. repeat split; [discriminate|simpl; lia].
  - cbn [app split]. rewrite Hs, Hst.
    destruct (ascii_eqb c newline).
    + exists [], (w :: ws), [], (w' :: ws'). repeat split; [discriminate|].
      cbn [List.filter]. destruct (truthy w) eqn:Ew.
      * rewrite (Hw eq_refl). simpl. lia.
      * destruct (truthy w'); simpl; lia.
    + exists (c :: w), ws, (c :: w'), ws'. repeat split; [exact Hws].
Qed.

Lemma printed_lines_prefix (s t : str) :
  (printed_lines s <= printed_lines (s ++ t))%Z.
Proof.
  destruct (split_first s t) as (w & ws & w' & ws' & Hs & Hst & Hw & Hws).
  unfold printed_lines, len. rewrite Hs, Hst. cbn [List.filter].
  destruct (truthy w) eqn:Ew.
  - rewrite (Hw eq_refl). simpl. lia.
  - destruct (truthy w'); simpl; lia.
Qed.

Lemma printed_lines_cons a (s : str) :
  (printed_lines s <= printed_lines (a :: s))%Z.
Proof.
  unfold printed_lines, len. cbn [split].
  destruct (ascii_eqb a newline); [cbn [List.filter truthy]; lia|].
  destruct (split newline s) as [|w ws]; [simpl; lia|].
  cbn [List.filter truthy]. destruct (truthy w); simpl; lia.
Qed.

Lemma printed_lines_lstrip (s : str) :
  (printed_lines (lstrip s) <= printed_lines s)%Z.
Proof.
  induction s as [|a s IH]; [reflexivity|]. cbn [lstrip].
  destruct (isspace a); [|lia].
  pose proof (printed_lines_cons a s). lia.
Qed.

Lemma lstrip_suffix (s : str) : exists pre, s = pre ++ lstrip s.
Proof.
  induction s as [|a s [pre IH]]; [exists []; reflexivity|]. cbn [lstrip].
  destruct (isspace a).
  - exists (a :: pre). cbn [app]. f_equal. exact IH.
  - exists []. reflexivity.
Qed.

Lemma rstrip_prefix (s : str) : exists t, s = rstrip s ++ t.
Proof.
  unfold rstrip. destruct (lstrip_suffix (rev s)) as [pre E].
  exists (rev pre). rewrite <- rev_app_distr, <- E, rev_involutive.
  reflexivity.
Qed.

(** [strip] adds no line. *)
Lemma printed_lines_strip (s : str) :
  (printed_lines (strip s) <= printed_lines s)%Z.
Proof.
  unfold strip. destruct (rstrip_prefix (lstrip s)) as [t E].
  pose proof (printed_lines_prefix (rstrip (lstrip s)) t) as H1.
  rewrite <- E in H1. pose proof (printed_lines_lstrip s). lia.
Qed.

Lemma log_cmd_git_log repo_path max_commits :
  log_cmd repo_path max_commits = git_log repo_path max_commits.
Proof. reflexivity. Qed.

Variable check_output : list str -> CommitReader.outcome.
Variable repo_path : str.


End ReaderAndTool.

(** The commits of the three-commit workspace are well formed, and git
    there prints at most as many lines as it is asked for. *)
Lemma scenario_commits_well_formed :
  Forall Vocabulary.well_formed_commit [Scenario.c3; Scenario.c2; Scenario.c1].
Proof.
  repeat constructor;
    try (intros H; vm_compute in H; intuition discriminate);
    try (intros a H; vm_compute in H; injection H as <-; reflexivity).
Qed.

Lemma max_count_inj (n m : Z) :
  ("--max-count=" ++ (pretty n : string) : str)
  = "--max-count=" ++ (pretty m : string) -> n = m.
Proof.
  intros H. apply app_inv_head in H.
  apply (f_equal string_of_list_ascii) in H.
  rewrite !string_of_list_ascii_of_string in H.
  exact (pretty_Z_inj _ _ H).
Qed.

Lemma scenario_honours_max_count :
  Vocabulary.honours_max_count Scenario.started.
Proof.
  intros repo_path n stdout Hn H. unfold Scenario.started in H.
  injection H as H. unfold Scenario.check_output in H.
  repeat case_bool_decide; try discriminate;
    match goal with
    | E : Vocabulary.git_log _ _ = CommitAnalyzer.log_cmd _ ?m |- _ =>
        assert (n = m) as ->
          by exact (max_count_inj n m (f_equal (fun cmd => nth 4 cmd []) E))
    end;
    injection H as <-; vm_compute; discriminate.
Qed.



(** ** The comparison of two commits by [analyze_feature_loss] *)

Section LegacyAnalysis.

Import CommitAnalyzer Vocabulary.

Variable check_output : list str -> subprocess_result.
Variable repo_path : str.

Implicit Types (commits : list commit) (changes : dict (list str)).

Lemma dict_set_new {V} (k : str) (v : V) (d : dict V) :
  dict_get k d = None -> dict_set k v d = d ++ [(k, v)].
Proof.
  induction d as [|[k0 v0] d IH]; simpl; [reflexivity|].
  destruct (str_eqb k0 k); [discriminate|].
  intros H. rewrite IH by exact H. reflexivity.
Qed.

Lemma dict_get_app_none {V} (k : str) (d1 d2 : dict V) :
  dict_get k d1 = None -> dict_get k (d1 ++ d2) = dict_get k d2.
Proof.
  induction d1 as [|[k0 v0] d1 IH]; simpl; [reflexivity|].
  destruct (str_eqb k0 k); [discriminate|exact IH].
Qed.

Lemma dict_get_map_values {V W} (g : V -> W) (k : str) (d : dict V) :
  dict_get k (map (fun kv => (fst kv, g (snd kv))) d) = g <$> dict_get k d.
Proof.
  induction d as [|[k0 v0] d IH]; simpl; [reflexivity|].
  destruct (str_eqb k0 k); [reflexivity|exact IH].
Qed.

Lemma categorize_from (deletions : dict (list str)) : forall acc,
  List.NoDup (dict_keys acc ++ dict_keys deletions) ->
  Forall (fun f => _is_code_file f = true) (dict_keys deletions) ->
  fold_left
    (fun acc kv =>
       if _is_code_file (fst kv)
       then dict_set (fst kv) (file_loss_of (snd kv)) acc
       else acc)
    deletions acc
  = acc ++ map (fun kv => (fst kv, file_loss_of (snd kv))) deletions.
Proof.
  induction deletions as [|[k ls] deletions IH]; intros acc Hnodup Hcode.
  - simpl. rewrite app_nil_r. reflexivity.
  - inversion Hcode as [|? ? Hk Hrest]; subst. simpl in Hk.
    cbn [fold_left fst snd]. rewrite Hk.
    change (dict_keys ((k, ls) :: deletions))
      with (k :: dict_keys deletions) in Hnodup.
    assert (Hfresh : dict_get k acc = None).
    { destruct (dict_get k acc) eqn:E; [|reflexivity]. exfalso.
      apply (NoDup_remove_2 _ _ _ Hnodup).
      apply in_or_app. left. apply dict_get_in_keys. congruence. }
    rewrite (dict_set_new _ _ _ Hfresh), IH.
    + rewrite <- app_assoc. reflexivity.
    + unfold dict_keys in *. rewrite List.map_app, <- app_assoc.
      exact Hnodup.
    + exact Hrest.
Qed.

Lemma categorize_spec (deletions : dict (list str)) :
  List.NoDup (dict_keys deletions) ->
  Forall (fun f => _is_code_file f = true) (dict_keys deletions) ->
  categorize deletions
  = map (fun kv => (fst kv, file_loss_of (snd kv))) deletions.
Proof.
  intros Hnodup Hcode. unfold categorize.
  apply (categorize_from deletions [] Hnodup Hcode).
Qed.

Lemma len_slice_to_10 {A} (l : list A) : (len (slice_to 10 l) <= 10)%Z.
Proof. apply len_slice_to. lia. Qed.

Lemma index_first {A} (l : list A) x :
  head l = Some x -> index l 0 = Return x.
Proof.
  destruct l as [|y l]; [discriminate|]. intros [= ->]. reflexivity.
Qed.

Lemma index_last {A} (l : list A) x :
  last l = Some x -> index l (-1) = Return x.
Proof.
  intros H. unfold index. cbn [Z.ltb Z.compare].
  assert (Hne : length l <> 0) by (destruct l; [discriminate|discriminate]).
  destruct (Z.ltb_spec (len l + -1) 0) as [Hneg|_]; [unfold len in Hneg; lia|].
  destruct (Z.leb_spec (len l) (len l + -1)) as [Hbig|_]; [lia|].
  cbn [orb]. rewrite last_lookup in H.
  replace (Z.to_nat (len l + -1)) with (pred (length l))
    by (unfold len; lia).
  rewrite H. reflexivity.
Qed.

Lemma index_out_of_range {A} (l : list A) i :
  (len l <= i)%Z \/ (i < - len l)%Z -> index l i = Raise IndexError.
Proof.
  intros H. unfold index. pose proof (len_nonneg l) as Hl.
  destruct (Z.ltb_spec i 0) as [Hi|Hi].
  - destruct (Z.ltb_spec (len l + i) 0) as [_|Hj]; [reflexivity|lia].
  - destruct (Z.ltb_spec i 0) as [|_]; [lia|].
    destruct (Z.leb_spec (len l) i) as [_|Hj]; [reflexivity|lia].
Qed.

(** The result of [analyze_feature_loss]: the files listed are the keys of
    the dictionary that [get_full_diff_between_commits] returns for the two
    indexed commits, also those without a line that starts with [-], and
    [files_with_deletions] is their number; for each of them
    [lines_deleted] is the number of the lines recorded for it in this
    dictionary that start with [-], and [sample_deletions] the first ten of
    these at most, without the marker. *)
Theorem analyze_feature_loss_result initial_commit_index recent_commit_index
    a :
  analyze_feature_loss check_output repo_path initial_commit_index
    recent_commit_index = Return (Analysis a) ->
  exists commits initial recent,
    get_commit_history check_output repo_path 50 = Return commits
    /\ index commits initial_commit_index = Return initial
    /\ index commits recent_commit_index = Return recent
    /\ initial_commit a = commit_info_of initial
    /\ recent_commit a = commit_info_of recent
    /\ analysis_commits_analyzed a = len commits
    /\ files_with_deletions a = len (deletions a)
    /\ dict_keys (deletions a)
       = dict_keys (get_full_diff_between_commits check_output repo_path
                      (hash initial) (hash recent))
    /\ forall f loss,
         dict_get f (deletions a) = Some loss ->
         let deleted :=
           stored f (deletions_of
                       (get_full_diff_between_commits check_output repo_path
                          (hash initial) (hash recent))) in
         lines_deleted loss = len deleted
         /\ sample_deletions loss = take 10 deleted
         /\ (len (sample_deletions loss) <= 10)%Z
         /\ (len (sample_deletions loss) <= lines_deleted loss)%Z.
Proof.
  unfold analyze_feature_loss.
  destruct (get_commit_history check_output repo_path 50) as [commits|]
    eqn:Ehist; cbn [bind]; [|discriminate].
  destruct (len commits <? 2)%Z; [discriminate|].
  destruct (index commits initial_commit_index) as [initial|] eqn:Ei;
    cbn [bind]; [|discriminate].
  destruct (index commits recent_commit_index) as [recent|] eqn:Er;
    cbn [bind]; [|discriminate].
  intros [= <-]. exists commits, initial, recent.
  set (changes := get_full_diff_between_commits check_output repo_path
                    (hash initial) (hash recent)).
  assert (Hcat : categorize (deletions_of changes)
                 = map (fun kv => (fst kv, file_loss_of (snd kv)))
                     (deletions_of changes)).
  { apply categorize_spec; rewrite dict_keys_deletions.
    - apply diff_paths_nodup.
    - apply full_diff_keys. }
  cbn [initial_commit recent_commit analysis_commits_analyzed
       files_with_deletions deletions].
  rewrite Hcat. split; [reflexivity|]. split; [exact Ei|].
  split; [exact Er|]. do 3 (split; [reflexivity|]). split; [|split].
  - unfold len. rewrite length_map. reflexivity.
  - unfold dict_keys. rewrite List.map_map. cbn [fst].
    apply dict_keys_deletions.
  - intros f loss H. cbn zeta.
    rewrite dict_get_map_values in H. unfold stored.
    destruct (dict_get f (deletions_of changes)) as [ls|]; [|discriminate].
    injection H as <-. cbn [default lines_deleted sample_deletions
                             file_loss_of].
    split; [reflexivity|]. split; [reflexivity|].
    split; [apply len_slice_to_10|].
    unfold len, slice_to. cbn [Z.ltb Z.compare]. rewrite length_take. lia.
Qed.

(** With its default indices 0 and -1, [analyze_feature_loss] takes the
    newest commit of the log as the initial one and the oldest as the
    recent one: the diff it reads is [git diff newest oldest], so the lines
    it reports as deleted are lines of the newest commit. *)
Theorem analyze_feature_loss_defaults commits :
  get_commit_history check_output repo_path 50 = Return commits ->
  (2 <= len commits)%Z ->
  exists newest oldest,
    head commits = Some newest /\ last commits = Some oldest
    /\ analyze_feature_loss check_output repo_path 0 (-1)
       = Return (Analysis
           {| initial_commit := commit_info_of newest;
              recent_commit := commit_info_of oldest;
              analysis_commits_analyzed := len commits;
              files_with_deletions :=
                len (deletions_of
                       (get_full_diff_between_commits check_output repo_path
                          (hash newest) (hash oldest)));
              deletions :=
                categorize
                  (deletions_of
                     (get_full_diff_between_commits check_output repo_path
                        (hash newest) (hash oldest))) |}).
Proof.
  intros Hhist Hlen.
  destruct (two_commits _ Hlen) as (newest & oldest & _ & _ & Hh & Hl).
  exists newest, oldest. split; [exact Hh|]. split; [exact Hl|].
  unfold analyze_feature_loss. rewrite Hhist. cbn [bind].
  apply Z.ltb_ge in Hlen. rewrite Hlen.
  rewrite (index_first _ _ Hh), (index_last _ _ Hl). reflexivity.
Qed.

(** The failures of [analyze_feature_loss]: a failing git command and a log
    of fewer than two commits give the error result with the number of
    commits found; an index outside the log raises [IndexError]; an
    exception of the log reader is passed on. *)
Theorem analyze_feature_loss_failures initial_commit_index
    recent_commit_index :
  let history := get_commit_history check_output repo_path 50 in
  let analysis :=
    analyze_feature_loss check_output repo_path initial_commit_index
      recent_commit_index in
  (check_output (log_cmd repo_path 50) = CalledProcessError ->
     analysis = Return (NotEnoughToAnalyze 0))
  /\ (forall commits, history = Return commits -> (len commits < 2)%Z ->
        analysis = Return (NotEnoughToAnalyze (len commits)))
  /\ (forall commits, history = Return commits -> (2 <= len commits)%Z ->
        (len commits <= initial_commit_index)%Z
        \/ (initial_commit_index < - len commits)%Z
        \/ (len commits <= recent_commit_index)%Z
        \/ (recent_commit_index < - len commits)%Z ->
        analysis = Raise IndexError)
  /\ (forall e, history = Raise e -> analysis = Raise e).
Proof.
  intros history analysis. subst history analysis.
  unfold analyze_feature_loss. split; [|split; [|split]].
  - intros H. unfold get_commit_history. rewrite H. reflexivity.
  - intros commits -> Hlen. cbn [bind].
    apply Z.ltb_lt in Hlen. rewrite Hlen. reflexivity.
  - intros commits -> Hlen Hout. cbn [bind].
    apply Z.ltb_ge in Hlen. rewrite Hlen.
    destruct (index commits initial_commit_index) as [initial|e] eqn:Ei;
      cbn [bind].
    + destruct Hout as [H|[H|H]].
      * rewrite index_out_of_range in Ei by (left; exact H). discriminate.
      * rewrite index_out_of_range in Ei by (right; exact H). discriminate.
      * rewrite index_out_of_range by exact H. reflexivity.
    + unfold index in Ei.
      destruct (_ || _); [injection Ei as <-; reflexivity|].
      destruct (commits !! _); [discriminate|].
      injection Ei as <-. reflexivity.
  - intros e ->. reflexivity.
Qed.

End LegacyAnalysis.

(** The three-commit workspace: the default comparison starts from [h3]. *)
Lemma analyze_feature_loss_on_scenario :
  exists a,
    CommitAnalyzer.analyze_feature_loss Scenario.check_output Scenario.repo
      0 (-1)
    = Return (CommitAnalyzer.Analysis a)
    /\ CommitAnalyzer.initial_commit a
       = CommitAnalyzer.commit_info_of Scenario.c3
    /\ CommitAnalyzer.recent_commit a
       = CommitAnalyzer.commit_info_of Scenario.c1.
Proof.
  destruct (analyze_feature_loss_defaults Scenario.check_output Scenario.repo
              [Scenario.c3; Scenario.c2; Scenario.c1] eq_refl
              ltac:(vm_compute; discriminate))
    as (newest & oldest & Hn & Ho & Heq).
  injection Hn as <-. injection Ho as <-.
  eexists. split; [exact Heq|]. split; reflexivity.
Defined.

(** The comparison of the oldest commit with the newest one: [a.py] lost
    two lines and [b.py], which only gained a line, is listed with none. *)
Lemma analyze_feature_loss_result_on_scenario :
  exists a,
    CommitAnalyzer.analyze_feature_loss Scenario.check_output Scenario.repo
      (-1) 0
    = Return (CommitAnalyzer.Analysis a)
    /\ CommitAnalyzer.files_with_deletions a = 2%Z
    /\ dict_keys (CommitAnalyzer.deletions a)
       = [ "a.py" : str; "b.py" : str ]
    /\ dict_get "a.py" (CommitAnalyzer.deletions a)
       = Some {| CommitAnalyzer.lines_deleted := 2;
                 CommitAnalyzer.sample_deletions :=
                   [ "def helper():" : str; "    return 1" : str ] |}
    /\ dict_get "b.py" (CommitAnalyzer.deletions a)
       = Some {| CommitAnalyzer.lines_deleted := 0;
                 CommitAnalyzer.sample_deletions := [] |}
    /\ forall f loss,
         dict_get f (CommitAnalyzer.deletions a) = Some loss ->
         (len (CommitAnalyzer.sample_deletions loss)
          <= CommitAnalyzer.lines_deleted loss)%Z.
Proof.
  eexists. split; [vm_compute; reflexivity|].
  do 4 (split; [vm_compute; reflexivity|]).
  intros f loss H.
  destruct (analyze_feature_loss_result Scenario.check_output Scenario.repo
              (-1) 0 _ eq_refl)
    as (commits & initial & recent & _ & _ & _ & _ & _ & _ & _ & _ & Hall).
  exact (proj2 (proj2 (proj2 (Hall f loss H)))).
Defined.

(** ** The history file over many calls *)

Section StoreOverTime.

Import history_manager ci_gate Vocabulary.

Implicit Types (d : disk) (repo_url now : str) (ops : list store_op).

Lemma lists_bounded_fresh d :
  HISTORY_FILE d = Absent \/ HISTORY_FILE d = Unreadable -> lists_bounded d.
Proof.
  intros [E|E] r es; unfold load_all_history; rewrite E, lookup_empty;
    discriminate.
Qed.

Lemma lists_bounded_save now repo_url ty sc su h d :
  lists_bounded d -> lists_bounded (save_analysis now repo_url ty sc su h d).
Proof.
  intros Hd r es. rewrite load_save.
  destruct (decide (repo_url = r)) as [->|Hne].
  - rewrite lookup_insert_eq. intros H.
    assert (Hlen : length es
                   = Nat.min 10 (S (length (get_repo_history r d)))).
    { pose proof (length_take
                    ({| timestamp := now; type := ty; score := sc;
                        summary := su; last_commit_hash := h |}
                     :: get_repo_history r d) 10) as Htake.
      cbn [length] in Htake. congruence. }
    lia.
  - rewrite lookup_insert_ne by assumption. apply Hd.
Qed.

Lemma lists_bounded_clear repo_url d :
  lists_bounded d -> lists_bounded (snd (clear_repo_history repo_url d)).
Proof.
  intros Hd r es. unfold clear_repo_history.
  destruct (load_all_history d !! repo_url) eqn:E; simpl; [|apply Hd].
  rewrite load_dump. destruct (decide (repo_url = r)) as [->|Hne].
  - rewrite lookup_delete_eq. discriminate.
  - rewrite lookup_delete_ne by assumption. apply Hd.
Qed.

Lemma lists_bounded_run ops : forall d,
  lists_bounded d -> lists_bounded (run_ops ops d).
Proof.
  induction ops as [|op ops IH]; intros d Hd; [exact Hd|].
  apply IH. destruct op as [c|r]; simpl.
  - apply lists_bounded_save. exact Hd.
  - apply lists_bounded_clear. exact Hd.
Qed.

(** Whatever sequence of [save_analysis] and [clear_repo_history] calls is
    run on a history file that was missing or unreadable, every repository
    that the file then holds has at least one record and at most ten. *)
Theorem store_lists_stay_bounded ops d :
  HISTORY_FILE d = Absent \/ HISTORY_FILE d = Unreadable ->
  forall repo_url es,
    load_all_history (run_ops ops d) !! repo_url = Some es ->
    1 <= length es <= 10.
Proof.
  intros Hfresh. apply lists_bounded_run, lists_bounded_fresh. exact Hfresh.
Qed.

(** [save_analysis] on a missing or unreadable file writes a file that
    holds the one repository with the one record; and after
    [clear_repo_history] for a repository, whatever the store held, the next
    [save_analysis] for it leaves exactly one record, the new one. *)
Theorem save_starts_afresh now repo_url ty sc su h d :
  let e := {| timestamp := now; type := ty; score := sc; summary := su;
              last_commit_hash := h |} in
  (HISTORY_FILE d = Absent \/ HISTORY_FILE d = Unreadable ->
     HISTORY_FILE (save_analysis now repo_url ty sc su h d)
     = Stored {[ repo_url := [e] ]})
  /\ get_repo_history repo_url
       (save_analysis now repo_url ty sc su h
          (snd (clear_repo_history repo_url d)))
     = [e].
Proof.
  intros e. split.
  - intros Hfresh.
    assert (Hload : load_all_history d = ∅)
      by (unfold load_all_history; destruct Hfresh as [-> | ->]; reflexivity).
    change (HISTORY_FILE (save_analysis now repo_url ty sc su h d))
      with (Stored (load_all_history
                      (save_analysis now repo_url ty sc su h d))).
    rewrite load_save. unfold get_repo_history. rewrite Hload, lookup_empty.
    change (take 10 (e :: default [] None)) with [e].
    rewrite insert_empty. reflexivity.
  - rewrite get_save_same.
    assert (Hgone : get_repo_history repo_url
                      (snd (clear_repo_history repo_url d)) = []).
    { unfold clear_repo_history.
      destruct (load_all_history d !! repo_url) eqn:E; cbn [snd].
      - unfold get_repo_history. rewrite load_dump, lookup_delete_eq.
        reflexivity.
      - unfold get_repo_history. rewrite E. reflexivity. }
    rewrite Hgone. reflexivity.
Qed.

(** The audit loop closes: after [save_analysis] has stored a non-empty
    head hash [h] for a repository, the scan of the stored records finds
    [h], so the next audit without a chosen range runs from [h] to the
    newest commit. *)
Theorem next_audit_starts_at_stored_head now repo_url ty sc su h d
    commit_history :
  truthy h = true ->
  (2 <= len commit_history)%Z ->
  let repo_history :=
    get_repo_history repo_url
      (save_analysis now repo_url ty sc su (Some h) d) in
  last_analyzed_commit repo_history = Some h
  /\ exists newest,
       head commit_history = Some newest
       /\ select_range repo_history commit_history None None
          = Return (h, CommitAnalyzer.hash newest).
Proof.
  intros Hh Hlen repo_history.
  assert (Hscan : last_analyzed_commit repo_history = Some h).
  { subst repo_history. rewrite get_save_same. simpl. rewrite Hh.
    reflexivity. }
  split; [exact Hscan|].
  destruct (two_commits _ Hlen) as (newest & oldest & Hf & Hl & Hhd & _).
  exists newest. split; [exact Hhd|].
  unfold select_range, ComplianceAgent.commit_range, final_head.
  rewrite supplied_idem, supplied_final_base, last_analyzed_supplied.
  rewrite Hf, Hl, Hscan. reflexivity.
Qed.

End StoreOverTime.

(** The store of the scenario after its audits, a reset and one more
    audit. *)
Lemma store_lists_on_scenario :
  exists es,
    history_manager.load_all_history
      (Vocabulary.run_ops
         (map Vocabulary.Save Scenario.audits
          ++ [Vocabulary.Clear Scenario.lib_url;
              Vocabulary.Save (Scenario.audit Scenario.app_url 23)])
         Scenario.fresh) !! Scenario.app_url = Some es
    /\ 1 <= length es <= 10.
Proof.
  eexists. split.
  - vm_compute. reflexivity.
  - apply (store_lists_stay_bounded
             (map Vocabulary.Save Scenario.audits
              ++ [Vocabulary.Clear Scenario.lib_url;
                  Vocabulary.Save (Scenario.audit Scenario.app_url 23)])
             Scenario.fresh (or_introl eq_refl) Scenario.app_url).
    vm_compute. reflexivity.
Defined.

Lemma next_audit_on_scenario :
  exists newest,
    head [Scenario.c3; Scenario.c2; Scenario.c1] = Some newest
    /\ ci_gate.select_range
         (history_manager.get_repo_history Scenario.app_url
            (history_manager.save_analysis "2024-01-04 09:00:00"
               Scenario.app_url "Unified" (VInt 0) VNone (Some Scenario.h2)
               Scenario.fresh))
         [Scenario.c3; Scenario.c2; Scenario.c1] None None
       = Return (Scenario.h2, CommitAnalyzer.hash newest).
Proof.
  exact (proj2 (next_audit_starts_at_stored_head "2024-01-04 09:00:00"
                  Scenario.app_url "Unified" (VInt 0) VNone Scenario.h2
                  Scenario.fresh [Scenario.c3; Scenario.c2; Scenario.c1]
                  eq_refl ltac:(vm_compute; discriminate))).
Defined.

(** ** What the judgment step keeps of a response *)

Section ResponseKept.

Import CommitAnalyzer ComplianceAgent Vocabulary.

Variable chain_invoke : prompt -> list (str * str) -> result str.
Variable json_loads : str -> result value.
Variable float_of_int : Z -> result pyfloat.
Variable float_of_str : str -> result pyfloat.
Variable str_of_exn : exn -> str.
Variable dumps_context : context_result -> str.
Variable dumps_changes : dict (list str) -> str.
Variable check_output : list str -> subprocess_result.
Variable now : str.

(** The clamping step on a dictionary: it returns a dictionary with the
    same keys in the same order, in which only the value of [key] is
    replaced, if there is one. *)
Lemma clamp_score_dict key (d : dict value) :
  exists d',
    clamp_score float_of_int float_of_str key (VDict d) = Return (VDict d')
    /\ dict_keys d' = dict_keys d
    /\ (forall k, k <> key -> dict_get k d' = dict_get k d)
    /\ (dict_get key d = None -> d' = d)
    /\ (forall v, dict_get key d = Some v ->
          dict_get key d' = Some (clamped float_of_int float_of_str v)).
Proof.
  unfold clamp_score, clamped. cbn [py_in bind]. unfold dict_in.
  fold (py_float float_of_int float_of_str).
  destruct (dict_get key d) as [v|] eqn:E.
  - cbn [getitem]. rewrite E. cbn [bind].
    destruct (py_float float_of_int float_of_str v) as [x|e] eqn:Ef;
      cbn [bind setitem].
    + exists (dict_set key (VFloat (clamp x)) d). split; [reflexivity|].
      split; [apply dict_keys_set_present; congruence|].
      split; [|split; [discriminate|]].
      * intros k Hk. rewrite dict_get_set.
        destruct (str_eqb key k) eqn:Ek; [|reflexivity].
        apply str_eqb_true in Ek. congruence.
      * intros v' [= <-]. rewrite dict_get_set, str_eqb_refl, Ef.
        reflexivity.
    + exists (dict_set key (VFloat zero) d). split; [reflexivity|].
      split; [apply dict_keys_set_present; congruence|].
      split; [|split; [discriminate|]].
      * intros k Hk. rewrite dict_get_set.
        destruct (str_eqb key k) eqn:Ek; [|reflexivity].
        apply str_eqb_true in Ek. congruence.
      * intros v' [= <-]. rewrite dict_get_set, str_eqb_refl, Ef.
        reflexivity.
  - exists d. split; [reflexivity|]. split; [reflexivity|].
    split; [reflexivity|]. split; [reflexivity|]. discriminate.
Qed.

(** The clamp [max(0.0, min(100.0, x))] case by case: a NaN and plus
    infinity become 100.0 and minus infinity 0.0; a finite value at most 0
    becomes 0.0, one of at least 100 becomes 100.0, and one strictly between
    is returned as it is. *)
Theorem clamp_cases :
  clamp FNaN = hundred
  /\ clamp (FInf false) = hundred
  /\ clamp (FInf true) = zero
  /\ forall q,
       ((q <= 0)%Q -> clamp (FFinite q) = zero)
       /\ ((100 <= q)%Q -> clamp (FFinite q) = hundred)
       /\ ((0 < q)%Q -> (q < 100)%Q -> clamp (FFinite q) = FFinite q).
Proof.
  split; [reflexivity|]. split; [reflexivity|]. split; [reflexivity|].
  intros q. unfold clamp, py_min, py_max, hundred, zero. cbn [float_lt].
  split; [|split].
  - intros Hq.
    assert (E1 : Qle_bool 100 q = false).
    { destruct (Qle_bool 100 q) eqn:E; [|reflexivity].
      apply Qle_bool_iff in E. exfalso.
      apply (Qle_not_lt _ _ (Qle_trans _ _ _ E Hq)). reflexivity. }
    rewrite E1. cbn [negb float_lt].
    apply Qle_bool_iff in Hq. rewrite Hq. reflexivity.
  - intros Hq. apply Qle_bool_iff in Hq. rewrite Hq. cbn [negb float_lt].
    reflexivity.
  - intros H0 H100.
    assert (E1 : Qle_bool 100 q = false).
    { destruct (Qle_bool 100 q) eqn:E; [|reflexivity].
      apply Qle_bool_iff in E. exfalso. exact (Qle_not_lt _ _ E H100). }
    assert (E2 : Qle_bool q 0 = false).
    { destruct (Qle_bool q 0) eqn:E; [|reflexivity].
      apply Qle_bool_iff in E. exfalso. exact (Qle_not_lt _ _ E H0). }
    rewrite E1. cbn [negb float_lt]. rewrite E2. reflexivity.
Qed.

(** When the judgment service answers the unified prompt with a JSON
    object, [unified_analysis] returns this object with its keys in their
    order and every value but that of [score] unchanged; a [score] is
    replaced by the clamped [float] of it, or by 0.0 when [float] raises;
    an object without [score] is returned as it is. *)
Theorem unified_analysis_keeps_response top repo_path requirements_text
    dos_donts_text content (d : dict value) :
  chain_invoke UnifiedPrompt
    (unified_inputs top repo_path requirements_text dos_donts_text)
  = Return content ->
  json_loads (clean content) = Return (VDict d) ->
  exists d',
    unified_analysis chain_invoke json_loads float_of_int float_of_str
      str_of_exn top repo_path requirements_text dos_donts_text
    = VDict d'
    /\ dict_keys d' = dict_keys d
    /\ (forall k, k <> ("score" : str) -> dict_get k d' = dict_get k d)
    /\ (dict_get "score" d = None -> d' = d)
    /\ (forall v, dict_get "score" d = Some v ->
          dict_get "score" d'
          = Some (clamped float_of_int float_of_str v)).
Proof.
  intros Hc Hj. unfold unified_analysis. rewrite Hc. cbn [bind].
  rewrite Hj. cbn [bind].
  destruct (clamp_score_dict "score" d) as (d' & -> & H).
  exists d'. split; [reflexivity|exact H].
Qed.

(** When at least two commits are read and the judgment service answers the
    feature-loss prompt with a JSON object,
    [analyze_feature_loss_with_history] returns this object with
    [feature_loss_score] clamped and with [analysis_metadata] set to the
    repository path, the number of commits read, the resolved base and
    head, and the date; every other value is unchanged. *)
Theorem analysis_records_resolved_range top repo_path requirements_text
    dos_donts_text base_commit head_commit commit_history content
    (d : dict value) :
  get_commit_history check_output repo_path 50 = Return commit_history ->
  (2 <= len commit_history)%Z ->
  (forall inputs, chain_invoke FeatureLossPrompt inputs = Return content) ->
  json_loads (clean content) = Return (VDict d) ->
  exists base head r,
    commit_range commit_history base_commit head_commit = Return (base, head)
    /\ analyze_feature_loss_with_history chain_invoke json_loads
         float_of_int float_of_str str_of_exn dumps_context dumps_changes
         check_output now top repo_path requirements_text dos_donts_text
         base_commit head_commit
       = Return r
    /\ field "analysis_metadata" r
       = Some (VDict [ ("repo_path" : str, VStr repo_path);
                       ("total_commits" : str, VInt (len commit_history));
                       ("base_commit" : str, VStr base);
                       ("head_commit" : str, VStr head);
                       ("analysis_date" : str, VStr now) ])
    /\ (forall v, dict_get "feature_loss_score" d = Some v ->
          field "feature_loss_score" r
          = Some (clamped float_of_int float_of_str v))
    /\ (forall k, k <> ("feature_loss_score" : str) ->
          k <> ("analysis_metadata" : str) ->
          field k r = dict_get k d).
Proof.
  intros Hhist Hlen Hc Hj.
  destruct (two_commits _ Hlen) as (newest & oldest & Hf & Hl & _).
  assert (Hrange : exists base head,
             commit_range commit_history base_commit head_commit
             = Return (base, head)).
  { unfold commit_range. rewrite Hf, Hl.
    destruct (supplied head_commit); destruct (supplied base_commit);
      cbn [bind]; eauto. }
  destruct Hrange as (base & head & Hrange). exists base, head.
  unfold analyze_feature_loss_with_history, get_feature_loss_context.
  rewrite Hhist. cbn [bind]. pose proof Hlen as Hlt.
  apply Z.ltb_ge in Hlt. rewrite Hlt, Hrange. cbn [bind].
  unfold feature_loss_try. rewrite Hc. cbn [bind]. rewrite Hj. cbn [bind].
  destruct (clamp_score_dict "feature_loss_score" d)
    as (d' & -> & _ & Hother & _ & Hscore).
  cbn [bind setitem]. eexists. split; [reflexivity|].
  split; [reflexivity|]. cbn [field].
  assert (Hne : ("analysis_metadata" : str) <> "feature_loss_score")
    by (cbv; discriminate).
  split; [|split].
  - rewrite dict_get_set, str_eqb_refl. reflexivity.
  - intros v Hv. rewrite dict_get_set.
    destruct (str_eqb "analysis_metadata" "feature_loss_score") eqn:E;
      [apply str_eqb_true in E; contradiction|].
    apply Hscore. exact Hv.
  - intros k Hk1 Hk2. rewrite dict_get_set.
    destruct (str_eqb "analysis_metadata" k) eqn:E;
      [apply str_eqb_true in E; congruence|].
    apply Hother. exact Hk1.
Qed.

End ResponseKept.

(** The service of the scenario: the score 150 is stored as 100.0 and the
    issues are kept. *)
Lemma unified_analysis_on_scenario :
  exists d',
    ComplianceAgent.unified_analysis Scenario.chain_invoke
      Scenario.json_loads Scenario.float_of_int Scenario.float_of_str
      Scenario.str_of_exn (Some Scenario.working_tree) Scenario.repo
      "The tool prints its name." []
    = VDict d'
    /\ dict_get "issues" d' = Some (VList []).
Proof.
  destruct (unified_analysis_keeps_response Scenario.chain_invoke
              Scenario.json_loads Scenario.float_of_int Scenario.float_of_str
              Scenario.str_of_exn (Some Scenario.working_tree) Scenario.repo
              "The tool prints its name." [] _ _ eq_refl eq_refl)
    as (d' & Hd & _ & Hother & _).
  exists d'. split; [exact Hd|].
  rewrite Hother by (cbv; discriminate). reflexivity.
Defined.

(** The three-commit workspace with a service that answers in JSON: the
    metadata names [h1] as the base and [h3] as the head. *)
Lemma analysis_on_scenario :
  exists r,
    ComplianceAgent.analyze_feature_loss_with_history Scenario.loss_service
      Scenario.loss_loads Scenario.float_of_int Scenario.float_of_str
      Scenario.str_of_exn (fun _ => []) (fun _ => []) Scenario.check_output
      "2024-01-04 09:00:00" (Some Scenario.working_tree) Scenario.repo
      "The tool prints its name." [] None None
    = Return r
    /\ field "analysis_metadata" r
       = Some (VDict [ ("repo_path" : str, VStr Scenario.repo);
                       ("total_commits" : str, VInt 3);
                       ("base_commit" : str, VStr Scenario.h1);
                       ("head_commit" : str, VStr Scenario.h3);
                       ("analysis_date" : str, VStr "2024-01-04 09:00:00") ]).
Proof.
  destruct (analysis_records_resolved_range Scenario.loss_service
              Scenario.loss_loads Scenario.float_of_int Scenario.float_of_str
              Scenario.str_of_exn (fun _ => []) (fun _ => [])
              Scenario.check_output "2024-01-04 09:00:00"
              (Some Scenario.working_tree) Scenario.repo
              "The tool prints its name." [] None None
              [Scenario.c3; Scenario.c2; Scenario.c1] Scenario.loss_json _
              eq_refl ltac:(vm_compute; discriminate)
              (fun _ => eq_refl) eq_refl)
    as (base & head & r & Hrange & Hr & Hmeta & _).
  exists r. split; [exact Hr|].
  vm_compute in Hrange. injection Hrange as <- <-. exact Hmeta.
Defined.

(** ** What the summarizer depends on *)

Section SummaryDependsOn.

Import ComplianceAgent Vocabulary.

Implicit Types (below : list str) (root : str) (st : walk_state)
  (file : file_node) (t : tree).

Lemma name_hide file : name (hide file) = name file.
Proof.
  unfold hide. destruct (endswith_any skipped_suffixes (name file));
    [reflexivity|].
  destruct (size file) as [sz|]; [|reflexivity].
  destruct (sz >? 102400)%Z; reflexivity.
Qed.

Lemma file_step_hide below root st file :
  file_step below root st (hide file) = file_step below root st file.
Proof.
  destruct st as [summary log]. unfold file_step. rewrite name_hide.
  destruct (endswith_any skipped_suffixes (name file)) eqn:Es;
    [reflexivity|].
  unfold hide. rewrite Es.
  destruct (size file) as [sz|] eqn:Ez; cbn [size]; [|reflexivity].
  destruct (sz >? 102400)%Z eqn:Eb; cbn [size].
  - rewrite Eb. reflexivity.
  - rewrite Ez, Eb. reflexivity.
Qed.

Lemma files_hide below root files : forall st,
  fold_left (file_step below root) (map hide files) st
  = fold_left (file_step below root) files st.
Proof.
  induction files as [|file files IH]; intros st; [reflexivity|].
  cbn [map fold_left]. rewrite file_step_hide. apply IH.
Qed.

Lemma visit_hide below root files st :
  visit below root (map hide files) st = visit below root files st.
Proof.
  destruct st as [summary log]. unfold visit.
  rewrite files_hide, List.map_map.
  rewrite (List.map_ext _ name name_hide). reflexivity.
Qed.

Lemma walk_seen t : forall below root st,
  walk below root (seen t) st = walk below root t st.
Proof.
  induction t as [files dirs IHdirs] using tree_induction.
  intros below root st. cbn [seen walk]. rewrite visit_hide.
  generalize (visit below root files st). clear st.
  induction IHdirs as [|[d sub] dirs IHsub _ IHrest]; intros st;
    [reflexivity|].
  destruct (ignored d) eqn:Ed.
  - apply IHrest.
  - rewrite Ed. cbn [snd] in IHsub. rewrite IHsub. apply IHrest.
Qed.

(** The summary and the events of [_get_code_summary] are those of the
    tree as the summarizer can see it: whatever lies below a directory of an
    ignored name, and the size and content of a file with a skipped suffix
    or of more than 102400 bytes, have no influence on the result. *)
Theorem summary_depends_on_seen t repo_path :
  _get_code_summary (Some t) repo_path
  = _get_code_summary (Some (seen t)) repo_path.
Proof. unfold _get_code_summary. rewrite walk_seen. reflexivity. Qed.

Lemma len_concat_take (entries : list str) n :
  (len (concat (take n entries)) <= len (concat entries))%Z.
Proof.
  rewrite <- (take_drop n entries) at 2.
  rewrite concat_app, len_app. pose proof (len_nonneg (concat (drop n entries))).
  lia.
Qed.

(** A file whose numbered lines fit into 3000 characters is emitted whole;
    a file whose first numbered line does not fit is emitted empty. *)
Theorem numbered_content_whole_or_empty lines :
  ((len (concat (entries_from 1 lines)) <= 3000)%Z ->
     numbered_content lines = concat (entries_from 1 lines))
  /\ (forall line rest,
        lines = line :: rest -> (len (line_entry 1 line) > 3000)%Z ->
        numbered_content lines = []).
Proof.
  split.
  - intros Hfit.
    destruct (numbered_content_spec lines) as (_ & k & _ & Heq & Hnext).
    rewrite Heq. destruct (entries_from 1 lines !! k) as [e|] eqn:E.
    + exfalso. specialize (Hnext e eq_refl).
      pose proof (len_concat_take (entries_from 1 lines) (S k)) as Hle.
      rewrite (take_S_r _ _ _ E), concat_app in Hle. simpl concat in Hle.
      rewrite app_nil_r, len_app, <- Heq in Hle. lia.
    + apply lookup_ge_None in E. rewrite take_ge by exact E. reflexivity.
  - intros line rest -> Hbig. unfold numbered_content. cbn [content_loop].
    destruct (Z.gtb_spec (0 + len (line_entry 1 line)) 3000) as [_|H];
      [reflexivity|lia].
Qed.

Lemma remove_from_plain c0 old s :
  ~ In c0 s -> remove_from (c0 :: old) s 0 = s.
Proof.
  induction s as [|c s IH]; intros H; [reflexivity|].
  cbn [remove_from].
  assert (Hc : ascii_eqb c0 c = false).
  { apply ascii_eqb_false. intros ->. apply H. left. reflexivity. }
  cbn [startswith]. rewrite Hc. cbn [andb]. rewrite IH; [reflexivity|].
  intros Hin. apply H. right. exact Hin.
Qed.

(** A response without a backtick reaches [json.loads] stripped of the
    white space around it and otherwise unchanged. *)
Theorem clean_without_fences content :
  ~ In backtick content -> clean content = strip content.
Proof.
  intros H. unfold clean, remove_all.
  change ("```json" : str) with (backtick :: ("``json" : str)).
  change ("```" : str) with (backtick :: ("``" : str)).
  rewrite (remove_from_plain backtick _ content H).
  rewrite (remove_from_plain backtick _ content H). reflexivity.
Qed.

End SummaryDependsOn.

(** The prose answer of the scenario has no backtick. *)
Lemma clean_on_scenario :
  ComplianceAgent.clean "  I could not find any removed feature. "
  = "I could not find any removed feature.".
Proof.
  rewrite clean_without_fences.
  - reflexivity.
  - intros H. vm_compute in H. intuition discriminate.
Defined.

Section Fences.

Import ComplianceAgent Vocabulary.

Lemma remove_from_app_plain c0 old a b :
  ~ In c0 a ->
  remove_from (c0 :: old) (a ++ b) 0 = a ++ remove_from (c0 :: old) b 0.
Proof.
  induction a as [|c a IH]; intros H; [reflexivity|].
  cbn [app remove_from].
  assert (Hc : ascii_eqb c0 c = false).
  { apply ascii_eqb_false. intros ->. apply H. left. reflexivity. }
  cbn [startswith]. rewrite Hc. cbn [andb]. rewrite IH; [reflexivity|].
  intros Hin. apply H. right. exact Hin.
Qed.

Lemma remove_json_fence_front s :
  remove_all "```json" ("```json" ++ s) = remove_all "```json" s.
Proof. reflexivity. Qed.

Lemma remove_fence_front s : remove_all "```" ("```" ++ s) = remove_all "```" s.
Proof. reflexivity. Qed.

(** A response in a JSON code fence: when the text between the fences has
    no backtick, [clean] gives this text, stripped. *)
Theorem clean_removes_fences body :
  ~ In backtick body ->
  clean ("```json" ++ body ++ "```") = strip body.
Proof.
  intros H. unfold clean. rewrite remove_json_fence_front.
  unfold remove_all.
  change ("```json" : str) with (backtick :: ("``json" : str)).
  rewrite (remove_from_app_plain backtick _ body _ H).
  change (remove_from (backtick :: ("``json" : str)) "```" 0)
    with ("```" : str).
  change ("```" : str) with (backtick :: ("``" : str)) at 1.
  rewrite (remove_from_app_plain backtick _ body _ H).
  change (remove_from (backtick :: ("``" : str)) "```" 0) with (@nil ascii).
  rewrite app_nil_r. reflexivity.
Qed.

End Fences.

(** The fenced answer of the scenario. *)
Lemma clean_fenced_on_scenario :
  ComplianceAgent.clean
    ("```json" ++ (Scenario.nl ++ Scenario.answer_json ++ Scenario.nl)
     ++ "```")
  = Scenario.answer_json.
Proof.
  rewrite clean_removes_fences.
  - reflexivity.
  - intros H. vm_compute in H. intuition discriminate.
Defined.

(** ** app.py: the base commit preselected in the range selector *)

Section BaseSelection.

Import CommitAnalyzer app.

Lemma first_with_prefix_some prefix commits : forall i j,
  first_with_prefix prefix commits i = Some j ->
  exists before c after,
    commits = before ++ c :: after
    /\ j = (i + len before)%Z
    /\ startswith prefix (hash c) = true
    /\ Forall (fun b => startswith prefix (hash b) = false) before.
Proof.
  induction commits as [|c rest IH]; intros i j H; [discriminate|].
  cbn [first_with_prefix] in H.
  destruct (startswith prefix (hash c)) eqn:Hc.
  - injection H as <-. exists [], c, rest. repeat split; auto.
    unfold len. simpl. lia.
  - destruct (IH _ _ H) as (before & c' & after & -> & -> & Hc' & Hb).
    exists (c :: before), c', after. repeat split; auto.
    unfold len. simpl. lia.
Qed.

Lemma first_with_prefix_none prefix commits : forall i,
  first_with_prefix prefix commits i = None ->
  Forall (fun b => startswith prefix (hash b) = false) commits.
Proof.
  induction commits as [|c rest IH]; intros i H; [constructor|].
  cbn [first_with_prefix] in H.
  destruct (startswith prefix (hash c)) eqn:Hc; [discriminate|].
  constructor; [exact Hc | exact (IH _ H)].
Qed.

Lemma first_with_prefix_found prefix before c after : forall i,
  Forall (fun b => startswith prefix (hash b) = false) before ->
  startswith prefix (hash c) = true ->
  first_with_prefix prefix (before ++ c :: after) i
  = Some (i + len before)%Z.
Proof.
  induction before as [|b before IH]; intros i Hb Hc.
  - cbn [app first_with_prefix]. rewrite Hc. f_equal. unfold len. simpl. lia.
  - apply Forall_cons in Hb as [Hb0 Hb].
    cbn [app first_with_prefix]. rewrite Hb0, IH by assumption.
    f_equal. unfold len. simpl. lia.
Qed.

Lemma last_split {A} (l : list A) :
  l <> [] -> exists before x, l = before ++ [x].
Proof.
  intros H. destruct (exists_last H) as (before & x & ->).
  exists before, x. reflexivity.
Qed.

Lemma startswith_slice_to n (s : str) :
  (0 <= n)%Z -> startswith (slice_to n s) s = true.
Proof.
  intros Hn. unfold slice_to.
  destruct (Z.ltb_spec n 0) as [Hlt|_]; [lia|].
  apply startswith_spec. exists (skipn (Z.to_nat n) s).
  symmetry. apply firstn_skipn.
Qed.

(** The index that the selector of the base commit starts from, for a
    list of commits that is not empty: it is the position of a commit of
    the list.  When a hash analyzed last is known and some commit's hash
    starts with its first eight characters, this is the first such commit;
    otherwise it is the last commit of the list, the oldest one. *)
Theorem base_idx_position available_commits last_analyzed_hash :
  available_commits <> [] ->
  exists before c after,
    available_commits = before ++ c :: after
    /\ base_idx available_commits last_analyzed_hash = len before
    /\ ((exists h,
           supplied last_analyzed_hash = Some h
           /\ startswith (slice_to 8 h) (hash c) = true
           /\ Forall (fun b => startswith (slice_to 8 h) (hash b) = false)
                before)
        \/ (after = []
            /\ (supplied last_analyzed_hash = None
                \/ exists h,
                     supplied last_analyzed_hash = Some h
                     /\ Forall
                          (fun b => startswith (slice_to 8 h) (hash b) = false)
                          available_commits))).
Proof.
  intros Hne.
  assert (Hlast : exists before c,
             available_commits = before ++ [c]
             /\ (len available_commits - 1 = len before)%Z).
  { destruct (last_split _ Hne) as (before & c & ->).
    exists before, c. split; [reflexivity|].
    rewrite len_app. unfold len at 2. simpl. lia. }
  destruct Hlast as (lb & lc & Hl & Hlen).
  unfold base_idx.
  destruct (supplied last_analyzed_hash) as [h|] eqn:Hs.
  - destruct (first_with_prefix (slice_to 8 h) available_commits 0)
      as [i|] eqn:Hf.
    + destruct (first_with_prefix_some _ _ _ _ Hf)
        as (before & c & after & -> & -> & Hc & Hb).
      exists before, c, after. split; [reflexivity|]. split; [lia|].
      left. exists h. auto.
    + exists lb, lc, []. split; [exact Hl|]. split; [exact Hlen|].
      right. split; [reflexivity|]. right. exists h. split; [reflexivity|].
      exact (first_with_prefix_none _ _ _ Hf).
  - exists lb, lc, []. split; [exact Hl|]. split; [exact Hlen|].
    right. split; [reflexivity|]. left. reflexivity.
Qed.

(** The commit analyzed last is preselected as the base when it is still
    in the list and no newer commit's hash starts with the first eight
    characters of its hash. *)
Theorem base_idx_finds_analyzed before c after :
  truthy (hash c) = true ->
  Forall (fun b => startswith (slice_to 8 (hash c)) (hash b) = false) before ->
  base_idx (before ++ c :: after) (Some (hash c)) = len before.
Proof.
  intros Ht Hb. unfold base_idx. cbn [supplied]. rewrite Ht.
  rewrite first_with_prefix_found.
  - lia.
  - exact Hb.
  - apply startswith_slice_to. lia.
Qed.

End BaseSelection.

Lemma base_idx_position_on_scenario :
  exists before c after,
    [Scenario.c3; Scenario.c2; Scenario.c1] = before ++ c :: after
    /\ app.base_idx [Scenario.c3; Scenario.c2; Scenario.c1] None
       = len before
    /\ ((exists h,
           supplied None = Some h
           /\ startswith (slice_to 8 h) (CommitAnalyzer.hash c) = true
           /\ Forall
                (fun b =>
                   startswith (slice_to 8 h) (CommitAnalyzer.hash b) = false)
                before)
        \/ (after = []
            /\ (supplied None = None
                \/ exists h,
                     supplied None = Some h
                     /\ Forall
                          (fun b =>
                             startswith (slice_to 8 h) (CommitAnalyzer.hash b)
                             = false)
                          [Scenario.c3; Scenario.c2; Scenario.c1]))).
Proof.
  apply (base_idx_position [Scenario.c3; Scenario.c2; Scenario.c1] None).
  discriminate.
Defined.

Lemma base_idx_on_scenario :
  app.base_idx ([Scenario.c3] ++ Scenario.c2 :: [Scenario.c1])
    (Some (CommitAnalyzer.hash Scenario.c2))
  = 1%Z.
Proof.
  rewrite (base_idx_finds_analyzed [Scenario.c3] Scenario.c2 [Scenario.c1]).
  - reflexivity.
  - reflexivity.
  - repeat constructor.
Defined.

(** ** mcp_server/tools/git_reader.py: the parts of a repository URL *)

Section RepositoryUrl.

Import git_reader.

Lemma span_stops p a c r :
  (forall x, In x a -> p x = true) -> p c = false ->
  span p (a ++ c :: r) = (a, c :: r).
Proof.
  intros Ha Hc. induction a as [|x a IH]; cbn [app span].
  - rewrite Hc. reflexivity.
  - rewrite (Ha x) by (left; reflexivity).
    rewrite IH; [reflexivity|]. intros y Hy. apply Ha. right. exact Hy.
Qed.

Lemma span_all p a :
  (forall x, In x a -> p x = true) -> span p a = (a, []).
Proof.
  intros Ha. induction a as [|x a IH]; cbn [span]; [reflexivity|].
  rewrite (Ha x) by (left; reflexivity).
  rewrite IH; [reflexivity|]. intros y Hy. apply Ha. right. exact Hy.
Qed.

Lemma span_app p s : fst (span p s) ++ snd (span p s) = s.
Proof.
  induction s as [|c r IH]; cbn [span]; [reflexivity|].
  destruct (p c); [|reflexivity].
  destruct (span p r) as [a b]. cbn [fst snd] in *. cbn [app]. f_equal. exact IH.
Qed.

Lemma span_fst p s x : In x (fst (span p s)) -> p x = true.
Proof.
  induction s as [|c r IH]; cbn [span]; [intros []|].
  destruct (p c) eqn:Hc; [|intros []].
  destruct (span p r) as [a b]. cbn [fst] in *.
  intros [<-|H]; [exact Hc | exact (IH H)].
Qed.

Lemma not_sep_true sep x : x <> sep -> negb (ascii_eqb x sep) = true.
Proof. intros H. apply negb_true_iff, ascii_eqb_false. exact H. Qed.

Lemma not_sep_all sep (a : str) x :
  ~ In sep a -> In x a -> negb (ascii_eqb x sep) = true.
Proof. intros Ha Hx. apply not_sep_true. intros ->. exact (Ha Hx). Qed.

Lemma not_sep_in sep (a : str) :
  (forall x, In x a -> negb (ascii_eqb x sep) = true) -> ~ In sep a.
Proof.
  intros Ha Hin. specialize (Ha _ Hin).
  rewrite ascii_eqb_refl in Ha. discriminate.
Qed.

Lemma segment_before_slash a r :
  a <> [] -> ~ In slash a -> segment (a ++ slash :: r) = Some (a, slash :: r).
Proof.
  intros Hne Ha. unfold segment. rewrite span_stops.
  - destruct a; [contradiction|reflexivity].
  - intros x. apply not_sep_all. exact Ha.
  - rewrite ascii_eqb_refl. reflexivity.
Qed.

Lemma segment_run a r :
  a <> [] -> ~ In slash a -> r = [] \/ head r = Some slash ->
  segment (a ++ r) = Some (a, r).
Proof.
  intros Hne Ha [->|Hr].
  - rewrite app_nil_r. unfold segment. rewrite span_all.
    + destruct a; [contradiction|reflexivity].
    + intros x. apply not_sep_all. exact Ha.
  - destruct r as [|c r]; [discriminate|]. injection Hr as ->.
    apply segment_before_slash; assumption.
Qed.

Lemma segment_inv s a r :
  segment s = Some (a, r) -> s = a ++ r /\ a <> [] /\ ~ In slash a.
Proof.
  unfold segment. pose proof (span_app (fun c => negb (ascii_eqb c slash)) s) as E.
  pose proof (span_fst (fun c => negb (ascii_eqb c slash)) s) as F.
  destruct (span _ s) as [seg rest]. cbn [fst snd] in *.
  destruct seg as [|c seg]; cbn [truthy]; [discriminate|].
  intros [= <- <-]. split; [auto|]. split; [discriminate|].
  apply not_sep_in. exact F.
Qed.

Lemma literal_app p s : literal p (p ++ s) = Some s.
Proof.
  unfold literal. rewrite startswith_app. f_equal.
  rewrite skipn_app, skipn_all, Nat.sub_diag. reflexivity.
Qed.

Lemma literal_inv p s r : literal p s = Some r -> s = p ++ r.
Proof.
  unfold literal. destruct (startswith p s) eqn:H; [|discriminate].
  apply startswith_spec in H as [r' ->]. intros [= <-].
  rewrite skipn_app, skipn_all, Nat.sub_diag. reflexivity.
Qed.

Lemma lstrip_slash_head s : startswith "/" (lstrip_slash s) = false.
Proof.
  induction s as [|c r IH]; [reflexivity|]. cbn [lstrip_slash].
  destruct (ascii_eqb c slash) eqn:Hc; [exact IH|].
  change (ascii_eqb slash c && true = false).
  rewrite andb_true_r. apply ascii_eqb_false in Hc.
  apply ascii_eqb_false. intros E. apply Hc. symmetry. exact E.
Qed.

Lemma lstrip_slash_in s x : In x (lstrip_slash s) -> In x s.
Proof.
  induction s as [|c r IH]; [intros []|]. cbn [lstrip_slash].
  destruct (ascii_eqb c slash); [|auto]. intros H. right. exact (IH H).
Qed.

Lemma match_github_browser_url scheme kind owner repo branch rest :
  scheme = "https" \/ scheme = "http" ->
  kind = "tree" \/ kind = "blob" ->
  owner <> [] -> ~ In slash owner ->
  repo <> [] -> ~ In slash repo ->
  branch <> [] -> ~ In slash branch ->
  rest = [] \/ head rest = Some slash ->
  match_github
    (scheme ++ "://github.com/" ++ owner ++ "/" ++ repo ++ "/" ++ kind
     ++ "/" ++ branch ++ rest)
  = Some (owner, repo, branch,
          fst (span (fun c => negb (ascii_eqb c newline)) rest)).
Proof.
  intros Hs Hk Ho1 Ho2 Hr1 Hr2 Hb1 Hb2 Hrest.
  set (tail := owner ++ "/" ++ repo ++ "/" ++ kind ++ "/" ++ branch ++ rest).
  assert (H1 : or_else (literal "https://github.com/"
                          (scheme ++ "://github.com/" ++ tail))
                       (literal "http://github.com/"
                          (scheme ++ "://github.com/" ++ tail))
               = Some tail).
  { destruct Hs as [->| ->].
    - change ("https" ++ "://github.com/" ++ tail)
        with ("https://github.com/" ++ tail).
      rewrite literal_app. reflexivity.
    - change ("http" ++ "://github.com/" ++ tail)
        with ("http://github.com/" ++ tail).
      rewrite (literal_app "http://github.com/").
      reflexivity. }
  unfold match_github. rewrite H1. unfold tail.
  change ("/" ++ repo ++ "/" ++ kind ++ "/" ++ branch ++ rest)
    with (slash :: repo ++ "/" ++ kind ++ "/" ++ branch ++ rest).
  rewrite segment_before_slash by assumption.
  change (slash :: repo ++ "/" ++ kind ++ "/" ++ branch ++ rest)
    with ("/" ++ repo ++ slash :: kind ++ "/" ++ branch ++ rest).
  rewrite literal_app.
  rewrite segment_before_slash by assumption.
  change (slash :: kind ++ "/" ++ branch ++ rest)
    with ("/" ++ kind ++ "/" ++ branch ++ rest).
  rewrite literal_app.
  assert (H2 : or_else (literal "tree/" (kind ++ "/" ++ branch ++ rest))
                       (literal "blob/" (kind ++ "/" ++ branch ++ rest))
               = Some (branch ++ rest)).
  { destruct Hk as [->| ->].
    - change ("tree" ++ "/" ++ branch ++ rest)
        with ("tree/" ++ branch ++ rest).
      rewrite literal_app. reflexivity.
    - change ("blob" ++ "/" ++ branch ++ rest)
        with ("blob/" ++ branch ++ rest).
      rewrite (literal_app "blob/"). reflexivity. }
  rewrite H2. rewrite segment_run by assumption. reflexivity.
Qed.

(** The address of a branch or of a file in the browser, with the scheme
    [https] or [http] and the word [tree] or [blob]: [parse_git_url] gives
    the [https] clone address of the repository, the branch, and what
    follows the branch up to a line break, without its leading slashes.
    The address must not end in [.git]: such an address is returned as it
    is. *)
Theorem parse_browser_url scheme kind owner repo branch rest :
  scheme = "https" \/ scheme = "http" ->
  kind = "tree" \/ kind = "blob" ->
  owner <> [] -> ~ In slash owner ->
  repo <> [] -> ~ In slash repo ->
  branch <> [] -> ~ In slash branch ->
  rest = [] \/ head rest = Some slash ->
  ~ In newline rest ->
  let url := scheme ++ "://github.com/" ++ owner ++ "/" ++ repo ++ "/"
             ++ kind ++ "/" ++ branch ++ rest in
  parse_git_url url
  = if endswith ".git" url then (url, None, None)
    else ("https://github.com/" ++ owner ++ "/" ++ repo ++ ".git",
          Some branch, Some (lstrip_slash rest)).
Proof.
  intros Hs Hk Ho1 Ho2 Hr1 Hr2 Hb1 Hb2 Hrest Hnl url.
  unfold parse_git_url. destruct (endswith ".git" url); [reflexivity|].
  unfold url. rewrite match_github_browser_url by assumption.
  rewrite span_all; [reflexivity|].
  intros x. apply not_sep_all. exact Hnl.
Qed.

(** What [parse_git_url] returns, for every address: either the address
    itself with no branch and no sub-path, or, for an address that does not
    end in [.git], an [https] clone address of github.com together with a
    branch that is not empty and has no slash and a sub-path that does not
    start with a slash and has no line break. *)
Theorem parse_git_url_result url :
  let '(root_url, branch, subpath) := parse_git_url url in
  (root_url = url /\ branch = None /\ subpath = None)
  \/ (exists owner repo b s,
        root_url = "https://github.com/" ++ owner ++ "/" ++ repo ++ ".git"
        /\ branch = Some b /\ subpath = Some s
        /\ endswith ".git" url = false
        /\ owner <> [] /\ ~ In slash owner
        /\ repo <> [] /\ ~ In slash repo
        /\ b <> [] /\ ~ In slash b
        /\ startswith "/" s = false /\ ~ In newline s).
Proof.
  unfold parse_git_url. destruct (endswith ".git" url) eqn:He; [auto|].
  destruct (match_github url) as [[[[owner repo] b] s]|] eqn:Hm; [|auto].
  right. exists owner, repo, b, (lstrip_slash s).
  unfold match_github in Hm.
  destruct (or_else _ _) as [r0|]; [|discriminate].
  destruct (segment r0) as [[o r1]|] eqn:S1; [|discriminate].
  destruct (literal "/" r1) as [r2|]; [|discriminate].
  destruct (segment r2) as [[rp r3]|] eqn:S2; [|discriminate].
  destruct (literal "/" r3) as [r4|]; [|discriminate].
  destruct (or_else _ _) as [r5|]; [|discriminate].
  destruct (segment r5) as [[br r6]|] eqn:S3; [|discriminate].
  injection Hm as <- <- <- <-.
  apply segment_inv in S1 as (_ & ? & ?).
  apply segment_inv in S2 as (_ & ? & ?).
  apply segment_inv in S3 as (_ & ? & ?).
  repeat split; auto.
  - apply lstrip_slash_head.
  - intros Hin. apply lstrip_slash_in in Hin.
    apply span_fst in Hin. rewrite ascii_eqb_refl in Hin. discriminate.
Qed.

(** The root address that [parse_git_url] returns is returned as it is,
    with no branch and no sub-path, when it is parsed again. *)
Theorem parse_git_url_root_again url :
  let root_url := fst (fst (parse_git_url url)) in
  parse_git_url root_url = (root_url, None, None).
Proof.
  cbn zeta.
  assert (R : fst (fst (parse_git_url url)) = url
              /\ (endswith ".git" url = true
                  \/ endswith ".git" url = false /\ match_github url = None)
              \/ endswith ".git" (fst (fst (parse_git_url url))) = true).
  { unfold parse_git_url. destruct (endswith ".git" url) eqn:He; [auto|].
    destruct (match_github url) as [[[[owner repo] b] s]|] eqn:Hm; [|auto].
    right. cbn [fst]. apply endswith_spec.
    exists ("https://github.com/" ++ owner ++ "/" ++ repo).
    rewrite <- !app_assoc. reflexivity. }
  destruct R as [[-> [He|[He Hm]]]|He].
  - unfold parse_git_url. rewrite He. reflexivity.
  - unfold parse_git_url. rewrite He, Hm. reflexivity.
  - generalize dependent (fst (fst (parse_git_url url))). intros root He.
    unfold parse_git_url. rewrite He. reflexivity.
Qed.

End RepositoryUrl.

(** The address of the docstring of [parse_git_url]. *)
Lemma parse_browser_url_on_docstring :
  git_reader.parse_git_url
    "https://github.com/user/repo/tree/branch-name/sub/folder"
  = ("https://github.com/user/repo.git" : str,
     Some ("branch-name" : str), Some ("sub/folder" : str)).
Proof.
  exact (parse_browser_url "https" "tree" "user" "repo" "branch-name"
           "/sub/folder"
           (or_introl eq_refl) (or_introl eq_refl)
           ltac:(discriminate) ltac:(vm_compute; intuition discriminate)
           ltac:(discriminate) ltac:(vm_compute; intuition discriminate)
           ltac:(discriminate) ltac:(vm_compute; intuition discriminate)
           (or_intror eq_refl) ltac:(vm_compute; intuition discriminate)).
Defined.

(** ** The cut of the summary at 45000 characters *)

Section FinalCut.

Import ComplianceAgent Vocabulary.

Lemma header_then_break_intro (header before rest : str) :
  In newline rest ->
  header_then_break header (before ++ header ++ rest) = true.
Proof.
  intros Hin. induction before as [|b before IH].
  - cbn [app]. destruct (header ++ rest) as [|c r] eqn:E.
    + destruct header; destruct rest; try discriminate. destruct Hin.
    + cbn [header_then_break]. rewrite <- E, startswith_app.
      rewrite skipn_app, skipn_all, Nat.sub_diag. cbn [skipn app].
      apply orb_true_iff. left. apply existsb_exists.
      exists newline. split; [exact Hin|apply ascii_eqb_refl].
  - cbn [app header_then_break]. rewrite IH.
    destruct (startswith header _); [apply orb_true_r|reflexivity].
Qed.

(** A text that holds the block of a file holds the line that names the
    file with a line break after it. *)
Lemma header_then_break_block file_name before content after :
  header_then_break ("--- " ++ file_name ++ " ---" ++ [newline])
    (before ++ file_block file_name content ++ after)
  = true.
Proof.
  assert (E : before ++ file_block file_name content ++ after
              = before ++ ("--- " ++ file_name ++ " ---" ++ [newline])
                ++ (content ++ [newline] ++ after)).
  { unfold file_block. rewrite <- !app_assoc. reflexivity. }
  rewrite E. apply header_then_break_intro.
  apply in_or_app. right. left. reflexivity.
Qed.

End FinalCut.



(** ** The history file, whatever it holds *)

Section AnyHistoryFile.

Import history_manager Vocabulary.

Implicit Types (d : disk) (repo_url other : str).

Lemma dict_get_elem {V} (k : str) (v : V) (fields : dict V) :
  dict_get k fields = Some v -> (k, v) ∈ fields.
Proof.
  induction fields as [|[k0 v0] fields IH]; simpl; [discriminate|].
  destruct (str_eqb k0 k) eqn:E.
  - apply str_eqb_true in E as ->. intros [= ->]. left.
  - intros H. right. exact (IH H).
Qed.

Lemma dict_get_unique {V} (k : str) (v : V) (fields : dict V) :
  NoDup (map fst fields) -> (k, v) ∈ fields -> dict_get k fields = Some v.
Proof.
  induction fields as [|[k0 v0] fields IH]; intros Hnodup Hin.
  - inversion Hin.
  - apply NoDup_cons in Hnodup as [Hk0 Hnodup]. simpl.
    apply elem_of_cons in Hin as [[= <- <-]|Hin].
    + rewrite str_eqb_refl. reflexivity.
    + destruct (str_eqb k0 k) eqn:E; [|exact (IH Hnodup Hin)].
      apply str_eqb_true in E as ->. exfalso. apply Hk0.
      apply list_elem_of_fmap. exists (k, v). split; [reflexivity|exact Hin].
Qed.

(** The association list of a mapping is looked up like the mapping. *)
Lemma dict_get_map_to_list {V} (history : gmap str V) (k : str) :
  dict_get k (map_to_list history) = history !! k.
Proof.
  destruct (history !! k) as [v|] eqn:E.
  - apply dict_get_unique; [apply NoDup_fst_map_to_list|].
    apply elem_of_map_to_list. exact E.
  - destruct (dict_get k (map_to_list history)) as [v|] eqn:E';
      [|reflexivity].
    apply dict_get_elem, elem_of_map_to_list in E'. congruence.
Qed.

(** On a file of the program the reader of any file returns the records
    of [get_repo_history], as JSON. *)
Lemma any_file_reads_the_same d repo_url :
  AnyFile.get_repo_history repo_url (any_of (HISTORY_FILE d))
  = Return (VList (map value_of_entry (get_repo_history repo_url d))).
Proof.
  unfold get_repo_history, load_all_history, AnyFile.get_repo_history.
  destruct (HISTORY_FILE d) as [| |history]; cbn [any_of AnyFile.load_all_history];
    rewrite ?lookup_empty; try reflexivity.
  pose proof (dict_get_map_values
                (fun es => VList (map value_of_entry es)) repo_url
                (map_to_list history)) as E.
  cbv beta in E. rewrite E, dict_get_map_to_list.
  destruct (history !! repo_url); reflexivity.
Qed.


End AnyHistoryFile.


